(** * mqtt.py: a simulated telemetry device, embedded and checked

    The program is one Python script: [create_jwt] builds the claim set of
    the authorization token, and [main] seeds the generator from the device
    id, draws twelve simulated quantities, and then, [num_messages] times,
    perturbs them, computes the "G - Index" and publishes a record.

    Modelling choices, all read off the source:
    - a Python [float] is an IEEE binary64 number, hence a primitive
      [float] here; a Python [int] is a [Z];
    - the operators of the index expression are applied to dynamically
      typed values ([pyval]) because the result of [^] depends on the
      run-time types of its operands;
    - the module-level generator of [random] is an explicit state
      threaded through every draw (class [RandomSource]); the system
      clock, the file system, the signing library and the broker are an
      environment [Env], which also says which exception a failing call
      of theirs raises;
    - calls on the MQTT client and [time.sleep] are recorded as events;
    - an exception aborts the computation that raised it: the script has
      no [try] statement;
    - [print] only writes to standard output and is not modelled, and
      [json.dumps] is kept abstract: a published payload is the
      dictionary it serialises. *)

From Stdlib Require Import ZArith List String Bool Lia Floats.
Import ListNotations.

Set Warnings "-inexact-float".

(** ** Python values, exceptions and results *)

Module Py.

(** The exceptions the script can run into: those the interpreter raises
    in the index expression, and those of the calls on the file system
    ([open], [read]), on the signing library ([jwt.encode]) and on the
    network ([client.connect]). *)
Inductive exn : Type :=
| TypeError
| ValueError
| ZeroDivisionError
| FileNotFoundError
| ConnectionError
| IsADirectoryError
| PermissionError
| UnicodeDecodeError
| OSError
| InvalidKeyError
| NotImplementedError
| ConnectionRefusedError
| GaiError
| SSLError
| TimeoutError.

Definition exn_name (e : exn) : string :=
  match e with
  | TypeError => "TypeError"
  | ValueError => "ValueError"
  | ZeroDivisionError => "ZeroDivisionError"
  | FileNotFoundError => "FileNotFoundError"
  | ConnectionError => "ConnectionError"
  | IsADirectoryError => "IsADirectoryError"
  | PermissionError => "PermissionError"
  | UnicodeDecodeError => "UnicodeDecodeError"
  | OSError => "OSError"
  | InvalidKeyError => "InvalidKeyError"
  | NotImplementedError => "NotImplementedError"
  | ConnectionRefusedError => "ConnectionRefusedError"
  | GaiError => "gaierror"
  | SSLError => "SSLError"
  | TimeoutError => "TimeoutError"
  end.

Inductive result (A : Type) : Type :=
| Ok (a : A)
| Raise (e : exn).
Arguments Ok {A} a.
Arguments Raise {A} e.

Definition rbind {A B} (r : result A) (k : A -> result B) : result B :=
  match r with
  | Ok a => k a
  | Raise e => Raise e
  end.

(** Numbers as the interpreter sees them. *)
Inductive pyval : Type :=
| PyInt (n : Z)
| PyFloat (x : float).

(** [float(n)] for the small integer literals of the script (exact below
    2^53, which covers every literal of the source). *)
Definition float_of_int (n : Z) : float :=
  if (n <? 0)%Z
  then (- of_uint63 (Uint63.of_Z (- n)))%float
  else of_uint63 (Uint63.of_Z n).

Definition to_float (v : pyval) : float :=
  match v with
  | PyInt n => float_of_int n
  | PyFloat x => x
  end.

(** [+], [-] and [*]: integer arithmetic on two ints, binary64
    arithmetic as soon as one operand is a float. *)
Definition py_arith (fz : Z -> Z -> Z) (ff : float -> float -> float)
           (a b : pyval) : pyval :=
  match a, b with
  | PyInt m, PyInt n => PyInt (fz m n)
  | _, _ => PyFloat (ff (to_float a) (to_float b))
  end.

Definition py_add := py_arith Z.add PrimFloat.add.
Definition py_sub := py_arith Z.sub PrimFloat.sub.
Definition py_mul := py_arith Z.mul PrimFloat.mul.

(** [/] is true division: the result is a float, and a zero divisor
    (of either sign) raises. *)
Definition py_truediv (a b : pyval) : result pyval :=
  if (to_float b =? 0)%float then Raise ZeroDivisionError
  else Ok (PyFloat (to_float a / to_float b)%float).

(** [^] is bitwise exclusive or; only integers implement it. *)
Definition py_xor (a b : pyval) : result pyval :=
  match a, b with
  | PyInt m, PyInt n => Ok (PyInt (Z.lxor m n))
  | _, _ => Raise TypeError
  end.

(** [math.sqrt]: a domain error when the argument is negative, that is,
    when the square root is a NaN that the argument was not. *)
Definition math_sqrt (v : pyval) : result pyval :=
  let x := to_float v in
  let r := PrimFloat.sqrt x in
  if is_nan r && negb (is_nan x) then Raise ValueError
  else Ok (PyFloat r).

(** [x > y] on floats. *)
Definition float_gt (x y : float) : bool := (y <? x)%float.

End Py.
Import Py.

Notation "x <-r c ;; k" := (rbind c (fun x => k))
  (at level 61, c at next level, right associativity).

(** ** The surroundings of the script *)

(** The generator behind [random.seed], [random.random] and
    [random.normalvariate].  Seeding replaces the whole state; every draw
    returns a value and the next state. *)
Class RandomSource (G : Type) : Type := {
  seed : string -> G;
  random : G -> float * G;
  normalvariate : float -> float -> G -> float * G
}.

(** A claim set.  In the dictionary [create_jwt] builds, times are
    microseconds since the epoch, the resolution of [datetime]; in the
    claim set the signing library serialises they are whole seconds. *)
Record Claims : Type := {
  iat : Z;
  exp : Z;
  aud : string
}.

(** What the script reads from outside: the successive readings of the
    system clock; the file system, with the exception [open] or [read]
    raises for a path that cannot be read; the signing library, with the
    exception it raises for key material it cannot use; and the broker,
    with the exception [client.connect] raises when the connection cannot
    be made.  Which exception a failing call raises is for the
    surroundings to say. *)
Record Env : Type := {
  clock : nat -> Z;
  read_file : string -> option string;
  open_error : string -> exn;
  key_ok : string -> string -> bool;
  encode_error : string -> string -> exn;
  jwt_encode : Claims -> string -> string -> string;
  connect_ok : string -> Z -> bool;
  connect_error : string -> Z -> exn
}.

(** The dictionary published at every tick, one field per key and in the
    order of the source. *)
Record Payload : Type := {
  p_timestamp : Z;
  p_device : string;
  p_temp_in : float;
  p_temp_out : float;
  p_pressure : float;
  p_humidity_in : float;
  p_humidity_out : float;
  p_uv_index : float;
  p_solar_irradiance : float;
  p_soil_moisture : float;
  p_carbon_dioxide : float;
  p_methan : float;
  p_nitrous_oxide : float;
  p_cfc : float;
  p_g_index : pyval
}.

(** Calls that leave the process. *)
Inductive event : Type :=
| EClient (client_id : string)
| EUsernamePwSet (username password : string)
| ETlsSet (ca_certs : string)
| EConnect (host : string) (port : Z)
| ELoopStart
| EPublish (topic : string) (payload : Payload) (qos : Z)
| ESleep (seconds : Z)
| ELoopStop.

(** The parsed command line. *)
Record Args : Type := {
  project_id : string;
  registry_id : string;
  device_id : string;
  private_key_file : string;
  algorithm : string;
  cloud_region : string;
  ca_certs : string;
  num_messages : Z;
  message_type : string;
  mqtt_bridge_hostname : string;
  mqtt_bridge_port : Z
}.

(** The local variables of [main] that the loop reads and updates. *)
Record Locals : Type := {
  simulated_temp : float;
  simulated_temp_out : float;
  sim_pressure : float;
  sim_hum : float;
  sim_hum_out : float;
  sim_uv : float;
  sim_irr : float;
  sim_smoist : float;
  sim_co2 : float;
  sim_ch4 : float;
  sim_n20 : float;
  sim_cfc : float;
  temperature_trend : Z
}.

(** ** Drawing from the generator *)

Definition Draw (G A : Type) : Type := G -> A * G.

Definition dret {G A} (a : A) : Draw G A := fun g => (a, g).

Definition dbind {G A B} (c : Draw G A) (k : A -> Draw G B) : Draw G B :=
  fun g => let (a, g') := c g in k a g'.

Notation "x <-d c ;; k" := (dbind c (fun x => k))
  (at level 61, c at next level, right associativity).

(** ** The effects of [main]: generator and clock position, exceptions,
    and the events emitted so far *)

Record State (G : Type) : Type := {
  rng : G;
  clock_reads : nat
}.
Arguments rng {G} _.
Arguments clock_reads {G} _.
Arguments Build_State {G} _ _.

Definition M (G A : Type) : Type :=
  Env -> State G -> result A * State G * list event.

Definition ret {G A} (a : A) : M G A := fun _ s => (Ok a, s, []).

Definition bind {G A B} (c : M G A) (k : A -> M G B) : M G B :=
  fun env s =>
    match c env s with
    | (Ok a, s1, t1) =>
        match k a env s1 with
        | (r, s2, t2) => (r, s2, t1 ++ t2)
        end
    | (Raise e, s1, t1) => (Raise e, s1, t1)
    end.

Notation "x <- c ;; k" := (bind c (fun x => k))
  (at level 61, c at next level, right associativity).
Notation "c ;;; k" := (bind c (fun _ => k))
  (at level 61, right associativity).

Definition raise {G A} (e : exn) : M G A := fun _ s => (Raise e, s, []).

Definition emit {G} (ev : event) : M G unit := fun _ s => (Ok tt, s, [ev]).

Definition lift_result {G A} (r : result A) : M G A := fun _ s => (r, s, []).

Definition lift_draw {G A} (c : Draw G A) : M G A :=
  fun _ s =>
    let (a, g') := c (rng s) in
    (Ok a, Build_State g' (clock_reads s), []).

(** One reading of the system clock. *)
Definition read_clock {G} : M G Z :=
  fun env s =>
    (Ok (clock env (clock_reads s)),
     Build_State (rng s) (S (clock_reads s)), []).

Definition outcome {G A} (r : result A * State G * list event) : result A :=
  fst (fst r).
Definition final_state {G A} (r : result A * State G * list event) : State G :=
  snd (fst r).
Definition events {G A} (r : result A * State G * list event) : list event :=
  snd r.

(** ** The script *)

Section Script.

Context {G : Type} `{RandomSource G}.

Local Open Scope string_scope.

(** [datetime.timedelta(minutes=60)], in microseconds. *)
Definition sixty_minutes : Z := 60 * 60 * 1000000.

(** The dictionary [token] of [create_jwt]: [utcnow()] is called once for
    ['iat'] and once more for ['exp']. *)
Definition token_claims (project : string) : M G Claims :=
  t_iat <- read_clock ;;
  t_exp <- read_clock ;;
  ret {| iat := t_iat; exp := t_exp + sixty_minutes; aud := project |}.

(** [with open(private_key_file, 'r') as f: private_key = f.read()]. *)
Definition open_read (path : string) : M G string :=
  fun env s =>
    match read_file env path with
    | Some content => (Ok content, s, [])
    | None => (Raise (open_error env path), s, [])
    end.

(** Whole seconds since the epoch of a time in microseconds, as
    [timegm(t.utctimetuple())] computes them. *)
Definition whole_seconds (t : Z) : Z := t / 1000000.

(** The claim set as [jwt.encode] serialises it: a [datetime] under
    ['iat'] or ['exp'] is replaced by its whole seconds since the
    epoch. *)
Definition registered_claims (c : Claims) : Claims :=
  {| iat := whole_seconds (iat c);
     exp := whole_seconds (exp c);
     aud := aud c |}.

(** [jwt.encode(token, private_key, algorithm=algorithm)]. *)
Definition encode (token : Claims) (key alg : string) : M G string :=
  fun env s =>
    if key_ok env key alg
    then (Ok (jwt_encode env (registered_claims token) key alg), s, [])
    else (Raise (encode_error env key alg), s, []).

Definition create_jwt (project key_file alg : string) : M G string :=
  token <- token_claims project ;;
  private_key <- open_read key_file ;;
  encode token private_key alg.

(** [client.connect]. *)
Definition connect (host : string) (port : Z) : M G unit :=
  emit (EConnect host port) ;;;
  (fun env s =>
     if connect_ok env host port then (Ok tt, s, [])
     else (Raise (connect_error env host port), s, [])).

(** [random.seed(x)] re-initialises the module-level generator. *)
Definition random_seed (x : string) : M G unit :=
  fun _ s => (Ok tt, Build_State (seed x) (clock_reads s), []).

(** The twelve initial quantities and the trend, drawn in the order of
    the assignments. *)
Definition initial_locals : Draw G Locals :=
  (r1 <-d random ;;
   r2 <-d random ;;
   r3 <-d random ;;
   r4 <-d random ;;
   r5 <-d random ;;
   r6 <-d random ;;
   r7 <-d random ;;
   r8 <-d random ;;
   r9 <-d random ;;
   r10 <-d random ;;
   r11 <-d random ;;
   r12 <-d random ;;
   r13 <-d random ;;
   dret {| simulated_temp := 45 + r1 * 20;
           simulated_temp_out := 35 + r2 * 10;
           sim_pressure := 1000 + r3 * 25;
           sim_hum := 25 + r4 * 30;
           sim_hum_out := 15 + r5 * 30;
           sim_uv := 5 + r6 * 10;
           sim_irr := 6 + r7 * 10;
           sim_smoist := 50 + r8 * 10;
           sim_co2 := 430 + r9 * 50;
           sim_ch4 := 1900 + r10 * 200;
           sim_n20 := 330 + r11 * 100;
           sim_cfc := 900 + r12 * 300;
           temperature_trend :=
             if float_gt r13 0.5 then 1%Z else (-1)%Z |})%float.

(** [(1 if random.random() > 0.5 else -1)]. *)
Definition coin : Draw G Z :=
  r <-d random ;;
  dret (if float_gt r 0.5 then 1%Z else (-1)%Z).

(** The twelve assignments that open the loop body.  In each of them the
    sign is evaluated before [normalvariate] is called. *)
Definition advance (l : Locals) : Draw G Locals :=
  (n1 <-d normalvariate 0.01 0.005 ;;
   n2 <-d normalvariate 0.01 0.005 ;;
   c3 <-d coin ;; n3 <-d normalvariate 0.1 0.01 ;;
   c4 <-d coin ;; n4 <-d normalvariate 0.1 0.01 ;;
   c5 <-d coin ;; n5 <-d normalvariate 0.1 0.01 ;;
   c6 <-d coin ;; n6 <-d normalvariate 0.1 0.01 ;;
   c7 <-d coin ;; n7 <-d normalvariate 0.1 0.01 ;;
   c8 <-d coin ;; n8 <-d normalvariate 0.1 0.01 ;;
   c9 <-d coin ;; n9 <-d normalvariate 0.1 0.01 ;;
   c10 <-d coin ;; n10 <-d normalvariate 0.1 0.01 ;;
   c11 <-d coin ;; n11 <-d normalvariate 0.1 0.01 ;;
   c12 <-d coin ;; n12 <-d normalvariate 0.1 0.01 ;;
   dret {| simulated_temp :=
             simulated_temp l + float_of_int (temperature_trend l) * n1;
           simulated_temp_out :=
             simulated_temp_out l + float_of_int (temperature_trend l) * n2;
           sim_pressure := sim_pressure l + float_of_int c3 * n3;
           sim_hum := sim_hum l + float_of_int c4 * n4;
           sim_hum_out := sim_hum_out l - float_of_int c5 * n5;
           sim_uv := sim_uv l + float_of_int c6 * n6;
           sim_irr := sim_irr l + float_of_int c7 * n7;
           sim_smoist := sim_smoist l + float_of_int c8 * n8;
           sim_co2 := sim_co2 l + float_of_int c9 * n9;
           sim_ch4 := sim_ch4 l + float_of_int c10 * n10;
           sim_n20 := sim_n20 l + float_of_int c11 * n11;
           sim_cfc := sim_cfc l + float_of_int c12 * n12;
           temperature_trend := temperature_trend l |})%float.

(** The right-hand side of [g_score = ...].  [^] binds less tightly than
    [+], [-], [*] and [/], so inside the outer parentheses the expression
    reads [(simulated_temp - simulated_temp_out) ^ (3/500 + ... + sim_uv)];
    operands are evaluated from left to right, the quotient last. *)
Definition g_score (l : Locals) : result pyval :=
  let lhs := py_sub (PyFloat (simulated_temp l))
                    (PyFloat (simulated_temp_out l)) in
  q <-r py_truediv (PyInt 3) (PyInt 500) ;;
  gases <-r Ok (py_add (py_add (py_add (PyFloat (sim_ch4 l))
                                       (PyFloat (sim_co2 l)))
                               (PyFloat (sim_n20 l)))
                       (PyFloat (sim_cfc l))) ;;
  s1 <-r math_sqrt gases ;;
  s2 <-r math_sqrt s1 ;;
  let rhs :=
    py_add (py_sub (py_add q s2)
                   (py_mul (PyInt 10)
                           (py_add (PyFloat (sim_smoist l))
                                   (PyFloat (sim_irr l)))))
           (PyFloat (sim_uv l)) in
  numerator <-r py_xor lhs rhs ;;
  let denominator :=
    py_add (PyFloat (sim_pressure l))
           (py_sub (PyFloat (sim_hum l)) (PyFloat (sim_hum_out l))) in
  py_truediv numerator denominator.

(** [int(time.time())]: whole seconds, truncated. *)
Definition unix_seconds : M G Z :=
  t <- read_clock ;;
  ret (Z.quot t 1000000).

Definition sub_topic (a : Args) : string :=
  if String.eqb (message_type a) "event" then "events" else "state".

Definition mqtt_topic (a : Args) : string :=
  "/devices/" ++ device_id a ++ "/" ++ sub_topic a.

Definition tick_interval (a : Args) : Z :=
  if String.eqb (message_type a) "event" then 1 else 5.

(** The dictionary literal bound to [payload]. *)
Definition make_payload (a : Args) (now : Z) (l : Locals) (g : pyval)
  : Payload :=
  {| p_timestamp := now;
     p_device := device_id a;
     p_temp_in := simulated_temp l;
     p_temp_out := simulated_temp_out l;
     p_pressure := sim_pressure l;
     p_humidity_in := sim_hum l;
     p_humidity_out := sim_hum_out l;
     p_uv_index := sim_uv l;
     p_solar_irradiance := sim_irr l;
     p_soil_moisture := sim_smoist l;
     p_carbon_dioxide := sim_co2 l;
     p_methan := sim_ch4 l;
     p_nitrous_oxide := sim_n20 l;
     p_cfc := sim_cfc l;
     p_g_index := g |}.

(** The rest of the loop body once [g_score] is bound: build the
    payload, publish it with [qos=1] and sleep. *)
Definition publish_record (a : Args) (l : Locals) (g : pyval) : M G unit :=
  now <- unix_seconds ;;
  emit (EPublish (mqtt_topic a) (make_payload a now l g) 1) ;;;
  emit (ESleep (tick_interval a)).

(** One iteration of [for i in range(1, args.num_messages + 1)]. *)
Definition tick (a : Args) (l : Locals) : M G Locals :=
  l' <- lift_draw (advance l) ;;
  g <- lift_result (g_score l') ;;
  publish_record a l' g ;;;
  ret l'.

(** The [for] loop, by the number of iterations still to run. *)
Fixpoint publish_loop (n : nat) (a : Args) (l : Locals) : M G Locals :=
  match n with
  | O => ret l
  | S n' => l' <- tick a l ;; publish_loop n' a l'
  end.

Definition client_id (a : Args) : string :=
  "projects/" ++ project_id a ++ "/locations/" ++ cloud_region a
    ++ "/registries/" ++ registry_id a ++ "/devices/" ++ device_id a.

(** Lines 124-153: create the client, set the credentials and TLS,
    connect and start the network loop. *)
Definition setup (a : Args) : M G unit :=
  emit (EClient (client_id a)) ;;;
  password <- create_jwt (project_id a) (private_key_file a) (algorithm a) ;;
  emit (EUsernamePwSet "unused" password) ;;;
  emit (ETlsSet (ca_certs a)) ;;;
  connect (mqtt_bridge_hostname a) (mqtt_bridge_port a) ;;;
  emit ELoopStart.

(** Lines 156-227: seed the generator from the device id, draw the
    initial quantities and the trend, and run the loop. *)
Definition simulate (a : Args) : M G Locals :=
  random_seed (device_id a) ;;;
  l <- lift_draw initial_locals ;;
  publish_loop (Z.to_nat (num_messages a)) a l.

Definition main (a : Args) : M G unit :=
  setup a ;;;
  simulate a ;;;
  emit ELoopStop.

End Script.

(** ** Observations on a run *)

Definition is_publish (ev : event) : bool :=
  match ev with EPublish _ _ _ => true | _ => false end.

Definition is_loop_stop (ev : event) : bool :=
  match ev with ELoopStop => true | _ => false end.

(** The payloads handed to [client.publish], in order. *)
Fixpoint published (t : list event) : list Payload :=
  match t with
  | [] => []
  | EPublish _ p _ :: t' => p :: published t'
  | _ :: t' => published t'
  end.

(** The thirteen numeric fields of a payload. *)
Definition readings (p : Payload) : list float * pyval :=
  ([p_temp_in p; p_temp_out p; p_pressure p; p_humidity_in p;
    p_humidity_out p; p_uv_index p; p_solar_irradiance p;
    p_soil_moisture p; p_carbon_dioxide p; p_methan p;
    p_nitrous_oxide p; p_cfc p], p_g_index p).

(** The index as the specification words it: the temperature difference
    is cubed arithmetically. *)
Definition index_formula (l : Locals) : float :=
  (let d := simulated_temp l - simulated_temp_out l in
   (d * d * d / 500
    + PrimFloat.sqrt (PrimFloat.sqrt
                        (sim_ch4 l + sim_co2 l + sim_n20 l + sim_cfc l))
    - 10 * (sim_smoist l + sim_irr l)
    + sim_uv l)
   / (sim_pressure l + (sim_hum l - sim_hum_out l)))%float.

Definition denominator (l : Locals) : float :=
  (sim_pressure l + (sim_hum l - sim_hum_out l))%float.

(** [k] consecutive executions of the twelve assignments. *)
Fixpoint advance_n {G} `{RandomSource G} (k : nat) (l : Locals)
  : Draw G Locals :=
  match k with
  | O => dret l
  | S k' => l' <-d advance l ;; advance_n k' l'
  end.

(** The state in which [g_score] is evaluated at a tick entered with
    locals [l] and generator state [rng s]. *)
Definition after_advance {G} `{RandomSource G} (l : Locals) (s : State G)
  : State G :=
  {| rng := snd (advance l (rng s)); clock_reads := clock_reads s |}.

Definition loop_stops (t : list event) : nat :=
  List.length (filter is_loop_stop t).

(** The same command line for another project, region and registry. *)
Definition with_identity (project region registry : string) (a : Args)
  : Args :=
  {| project_id := project;
     registry_id := registry;
     device_id := device_id a;
     private_key_file := private_key_file a;
     algorithm := algorithm a;
     cloud_region := region;
     ca_certs := ca_certs a;
     num_messages := num_messages a;
     message_type := message_type a;
     mqtt_bridge_hostname := mqtt_bridge_hostname a;
     mqtt_bridge_port := mqtt_bridge_port a |}.

(** The same surroundings under another clock. *)
Definition with_clock (c : nat -> Z) (env : Env) : Env :=
  {| clock := c;
     read_file := read_file env;
     open_error := open_error env;
     key_ok := key_ok env;
     encode_error := encode_error env;
     jwt_encode := jwt_encode env;
     connect_ok := connect_ok env;
     connect_error := connect_error env |}.

(** The generator state and the locals with which the loop of a device is
    entered. *)
Definition seeded_locals {G} `{RandomSource G} (dev : string) : Locals :=
  fst (initial_locals (seed dev)).
Definition seeded_rng {G} `{RandomSource G} (dev : string) : G :=
  snd (initial_locals (seed dev)).

(** ** The evolution rule as the specification words it

    Every quantity is perturbed in turn: a temperature by the trend times
    a normal draw of mean 0.01 and deviation 0.005, any other quantity by
    the sign of a coin flipped for it times a normal draw of mean 0.1 and
    deviation 0.01, the outdoor humidity with the opposite of its coin. *)

(** The coin of the specification, flipped afresh for one quantity: a
    value of [random()] is drawn for it alone, and the coin shows +1 when
    that value is above one half and -1 otherwise. *)
Definition fair_sign {G} `{RandomSource G} : Draw G Z :=
  fun g =>
    (if (0.5 <? fst (random g))%float then 1%Z else (-1)%Z, snd (random g)).

Inductive quantity_kind : Type :=
| Temperature
| Signed
| SignedOpposite.

(** The twelve quantities of a state, in the order of the source. *)
Definition quantities (l : Locals) : list float :=
  [simulated_temp l; simulated_temp_out l; sim_pressure l; sim_hum l;
   sim_hum_out l; sim_uv l; sim_irr l; sim_smoist l; sim_co2 l; sim_ch4 l;
   sim_n20 l; sim_cfc l].

Definition kinds : list quantity_kind :=
  [Temperature; Temperature; Signed; Signed; SignedOpposite; Signed; Signed;
   Signed; Signed; Signed; Signed; Signed].

Definition perturb {G} `{RandomSource G} (trend : Z) (k : quantity_kind)
           (x : float) : Draw G float :=
  match k with
  | Temperature =>
      n <-d normalvariate 0.01 0.005 ;;
      dret (x + float_of_int trend * n)%float
  | Signed =>
      c <-d fair_sign ;;
      n <-d normalvariate 0.1 0.01 ;;
      dret (x + float_of_int c * n)%float
  | SignedOpposite =>
      c <-d fair_sign ;;
      n <-d normalvariate 0.1 0.01 ;;
      dret (x + float_of_int (- c) * n)%float
  end.

Fixpoint perturb_each {G} `{RandomSource G} (trend : Z)
         (ks : list quantity_kind) (xs : list float) : Draw G (list float) :=
  match ks, xs with
  | k :: ks', x :: xs' =>
      x' <-d perturb trend k x ;;
      rest <-d perturb_each trend ks' xs' ;;
      dret (x' :: rest)
  | _, _ => dret []
  end.

(** The generator after [k] calls of [random()]. *)
Fixpoint after_draws {G} `{RandomSource G} (k : nat) (g : G) : G :=
  match k with
  | O => g
  | S k' => after_draws k' (snd (random g))
  end.

(** The [k]-th next value of [random()], counting from 0. *)
Definition draw {G} `{RandomSource G} (k : nat) (g : G) : float :=
  fst (random (after_draws k g)).

(** The values [random()] returns: k / 2^53 for an integer k from 0 to
    2^53 - 1, each as likely as any other (the generator builds k from 53
    random bits and scales it by 2^-53, both without rounding). *)
Definition random_value (k : Z) : float :=
  (of_uint63 (Uint63.of_Z k) * 0x1p-53)%float.

(** Among the first [n] values of [random()], the number of those for
    which [random() > 0.5] holds. *)
Fixpoint count_up (n : nat) : Z :=
  match n with
  | O => 0%Z
  | S m =>
      ((if float_gt (random_value (Z.of_nat m)) 0.5 then 1 else 0)
       + count_up m)%Z
  end.

(** The constants of the twelve initial assignments: base and range. *)
Definition initial_bounds : list (float * float) :=
  [(45, 20); (35, 10); (1000, 25); (25, 30); (15, 30); (5, 10); (6, 10);
   (50, 10); (430, 50); (1900, 200); (330, 100); (900, 300)]%float.

(** ** Binary64 numbers through their specification

    Auxiliary notions for reasoning on the order of the twelve initial
    quantities: what rounding returns, canonical mantissas, the number
    one, and pairs whose sum is computed exactly. *)

Module Format.

Local Open Scope Z_scope.

(** What [binary_round_aux] returns for the mantissa and the exponent
    it ends with. *)
Definition rounded (m e : Z) : spec_float :=
  match m with
  | Z0 => S754_zero false
  | Zpos p =>
      if e <=? emax - prec then S754_finite false p e
      else S754_infinity false
  | Zneg _ => S754_nan
  end.

(** A positive mantissa with its exponent, in canonical form. *)
Definition canon (m e : Z) : Prop :=
  0 < m < 2 ^ 53 /\ -1074 <= e /\ (-1074 < e -> 2 ^ 52 <= m).

Definition spec_one : spec_float := S754_finite false 4503599627370496 (-52).

(** [b] and [r] are positive, [r] is normal and [b + r] is computed
    without rounding. *)
Definition exact_pair (b r : float) : bool :=
  match Prim2SF b, Prim2SF r, Prim2SF (b + r) with
  | S754_finite false pb eb, S754_finite false pr er,
    S754_finite false ps es =>
      (2 ^ 52 <=? Zpos pr)
      && (Zpos pb * 2 ^ (eb + 1074) + Zpos pr * 2 ^ (er + 1074)
          =? Zpos ps * 2 ^ (es + 1074))
  | _, _, _ => false
  end.

End Format.

(** ** The range of the initial quantities *)

(** A quantity lies between its base and its base plus its range, both
    ends included. *)
Definition in_range (br : float * float) (q : float) : Prop :=
  (fst br <=? q)%float = true /\ (q <=? fst br + snd br)%float = true.

(** [random()] returns a value of the interval [0, 1). *)
Definition unit_interval_source (G : Type) `{RandomSource G} : Prop :=
  forall g : G,
    (0 <=? fst (random g))%float = true /\ (fst (random g) <? 1)%float = true.

(** The twelve initial quantities from the first twelve values of
    [random()]: base plus draw times range. *)
Definition initial_formula {G} `{RandomSource G} (g : G) : list float :=
  map (fun kbr => (fst (snd kbr) + draw (fst kbr) g * snd (snd kbr))%float)
      (combine (seq 0 12) initial_bounds).

(** ** Concrete surroundings used in the examples *)

Module Sample.

(** A generator that always answers the same: [random()] is 0.75 and a
    normal draw is its mean. *)
Definition steady : RandomSource unit :=
  {| seed := fun _ => tt;
     random := fun g => (0.75%float, g);
     normalvariate := fun mu _ g => (mu, g) |}.

(** A generator whose [random()] always answers the largest binary64
    number below one, 1 - 2^-53. *)
Definition edge : RandomSource unit :=
  {| seed := fun _ => tt;
     random := fun g => (0x1.fffffffffffffp-1%float, g);
     normalvariate := fun mu _ g => (mu, g) |}.

(** A clock that advances by one microsecond at every reading, from
    2021-01-01T00:00:00Z. *)
Definition ticking (n : nat) : Z := 1609459200 * 1000000 + Z.of_nat n.

(** The same clock, except that two hours go by after the second
    reading. *)
Definition stalled (n : nat) : Z :=
  if (n <? 2)%nat then ticking n
  else ticking n + 2 * 60 * 60 * 1000000.

Definition env : Env :=
  {| clock := ticking;
     read_file := fun _ => Some "key"%string;
     open_error := fun _ => FileNotFoundError;
     key_ok := fun _ _ => true;
     encode_error := fun _ _ => InvalidKeyError;
     jwt_encode := fun _ _ _ => "jwt"%string;
     connect_ok := fun _ _ => true;
     connect_error := fun _ _ => ConnectionRefusedError |}.

(** A clock whose first reading is the last microsecond of a second. *)
Definition boundary (n : nat) : Z :=
  1609459200 * 1000000 + 999999 + Z.of_nat n.

(** The same surroundings under that clock, for any signing function. *)
Definition env_boundary (sign : Claims -> string -> string -> string) : Env :=
  {| clock := boundary;
     read_file := read_file env;
     open_error := open_error env;
     key_ok := key_ok env;
     encode_error := encode_error env;
     jwt_encode := sign;
     connect_ok := connect_ok env;
     connect_error := connect_error env |}.

Definition args (n : Z) : Args :=
  {| project_id := "proj";
     registry_id := "reg";
     device_id := "dev-1";
     private_key_file := "rsa_private.pem";
     algorithm := "RS256";
     cloud_region := "us-central1";
     ca_certs := "roots.pem";
     num_messages := n;
     message_type := "event";
     mqtt_bridge_hostname := "mqtt.googleapis.com";
     mqtt_bridge_port := 8883 |}.

(** The same surroundings when two hours go by between the issue of the
    token and the first tick. *)
Definition env_stalled : Env := with_clock stalled env.

Definition start : State unit := {| rng := tt; clock_reads := 0 |}.

(** The locals of [main] when the loop is entered, under [steady]. *)
Definition locals0 : Locals := fst (@initial_locals unit steady tt).

(** The locals of the first tick when [g_score] is evaluated. *)
Definition locals1 : Locals := fst (@advance unit steady locals0 tt).

(** A generator whose [random()] always answers one half. *)
Definition half : RandomSource unit :=
  {| seed := fun _ => tt;
     random := fun g => (0.5%float, g);
     normalvariate := fun mu _ g => (mu, g) |}.

(** The locals with which the loop is entered under [steady], except for
    a pressure of 2^52. *)
Definition saturated : Locals :=
  {| simulated_temp := 60;
     simulated_temp_out := 42.5;
     sim_pressure := 4503599627370496;
     sim_hum := 47.5;
     sim_hum_out := 37.5;
     sim_uv := 12.5;
     sim_irr := 13.5;
     sim_smoist := 57.5;
     sim_co2 := 467.5;
     sim_ch4 := 2050;
     sim_n20 := 405;
     sim_cfc := 1125;
     temperature_trend := 1 |}.

End Sample.

(** ** Further observations *)

(** The sum under the square roots of the index expression, associated as
    in the source. *)
Definition gas_sum (l : Locals) : float :=
  (sim_ch4 l + sim_co2 l + sim_n20 l + sim_cfc l)%float.

(** The calls [main] makes on the client when nothing fails and the loop
    runs to its end without publishing, for a given password. *)
Definition session_calls (a : Args) (password : string) : list event :=
  [EClient (client_id a);
   EUsernamePwSet "unused" password;
   ETlsSet (ca_certs a);
   EConnect (mqtt_bridge_hostname a) (mqtt_bridge_port a);
   ELoopStart;
   ELoopStop].

(** A float that is positive and not infinite. *)
Definition positive_finite (x : float) : bool :=
  ((0 <? x) && (x <? infinity))%float.

(** Surroundings in which something fails. *)
Module Faults.

(** The key file is there but may not be read. *)
Definition no_key_file : Env :=
  {| clock := clock Sample.env;
     read_file := fun _ => None;
     open_error := fun _ => PermissionError;
     key_ok := key_ok Sample.env;
     encode_error := encode_error Sample.env;
     jwt_encode := jwt_encode Sample.env;
     connect_ok := connect_ok Sample.env;
     connect_error := connect_error Sample.env |}.

(** The name of the broker does not resolve. *)
Definition unreachable : Env :=
  {| clock := clock Sample.env;
     read_file := read_file Sample.env;
     open_error := open_error Sample.env;
     key_ok := key_ok Sample.env;
     encode_error := encode_error Sample.env;
     jwt_encode := jwt_encode Sample.env;
     connect_ok := fun _ _ => false;
     connect_error := fun _ _ => GaiError |}.

End Faults.

(** * Properties *)

(** ** The index expression *)

Lemma py_xor_float_l (x : float) (v : pyval) :
  py_xor (PyFloat x) v = Raise TypeError.
Proof. reflexivity. Qed.

Lemma math_sqrt_cases (v : pyval) :
  math_sqrt v = Raise ValueError \/ exists x, math_sqrt v = Ok (PyFloat x).
Proof.
  unfold math_sqrt.
  destruct (is_nan (PrimFloat.sqrt (to_float v)) && negb (is_nan (to_float v))).
  - now left.
  - right. eauto.
Qed.

Lemma g_score_error (l : Locals) :
  g_score l = Raise TypeError \/ g_score l = Raise ValueError.
Proof.
  unfold g_score.
  change (py_truediv (PyInt 3) (PyInt 500))
    with (Ok (PyFloat (float_of_int 3 / float_of_int 500))).
  cbn [rbind].
  destruct (math_sqrt_cases
              (py_add (py_add (py_add (PyFloat (sim_ch4 l))
                                      (PyFloat (sim_co2 l)))
                              (PyFloat (sim_n20 l)))
                      (PyFloat (sim_cfc l)))) as [-> | [x ->]];
    cbn [rbind]; [now right|].
  destruct (math_sqrt_cases (PyFloat x)) as [-> | [y ->]];
    cbn [rbind]; [now right|].
  now left.
Qed.

Lemma g_score_not_ok (l : Locals) (v : pyval) : g_score l <> Ok v.
Proof. destruct (g_score_error l) as [-> | ->]; discriminate. Qed.

(** C1: whatever the state, the assignment to [g_score] raises: the
    left operand of [^] is a float, so the operator fails with a
    [TypeError] (or [math.sqrt] has already failed with a [ValueError]);
    in particular the value of the arithmetic formula is never produced. *)
Theorem g_score_raises (l : Locals) :
  (g_score l = Raise TypeError \/ g_score l = Raise ValueError)
  /\ g_score l <> Ok (PyFloat (index_formula l)).
Proof.
  split; [apply g_score_error | apply g_score_not_ok].
Qed.

(** The first tick of a run on device "dev-1" under the steady generator. *)
Example g_score_first_tick :
  g_score Sample.locals1 = Raise TypeError.
Proof. vm_compute. reflexivity. Qed.

(** ** The loop body and the loop *)

Section Loop.

Context {G : Type} `{RandomSource G}.

Lemma publish_record_run (a : Args) (l : Locals) (g : pyval)
      (env : Env) (s : State G) :
  publish_record a l g env s =
  (Ok tt,
   {| rng := rng s; clock_reads := S (clock_reads s) |},
   [EPublish (mqtt_topic a)
             (make_payload a (Z.quot (clock env (clock_reads s)) 1000000) l g)
             1;
    ESleep (tick_interval a)]).
Proof. reflexivity. Qed.

Lemma tick_run (a : Args) (l : Locals) (env : Env) (s : State G) :
  tick a l env s =
  match g_score (fst (advance l (rng s))) with
  | Raise e => (Raise e, after_advance l s, [])
  | Ok g =>
      (Ok (fst (advance l (rng s))),
       {| rng := snd (advance l (rng s));
          clock_reads := S (clock_reads s) |},
       [EPublish (mqtt_topic a)
                 (make_payload a (Z.quot (clock env (clock_reads s)) 1000000)
                               (fst (advance l (rng s))) g)
                 1;
        ESleep (tick_interval a)])
  end.
Proof.
  unfold tick, bind, lift_draw, lift_result, after_advance.
  destruct (advance l (rng s)) as [l' g'].
  cbn [fst snd].
  destruct (g_score l') as [v | e]; reflexivity.
Qed.

Lemma tick_failure (a : Args) (l : Locals) (env : Env) (s : State G)
      (e : exn) :
  g_score (fst (advance l (rng s))) = Raise e ->
  tick a l env s = (Raise e, after_advance l s, []).
Proof. intros He. rewrite tick_run, He. reflexivity. Qed.

Lemma publish_loop_failure (n : nat) (a : Args) (l : Locals) (env : Env)
      (s : State G) (e : exn) :
  g_score (fst (advance l (rng s))) = Raise e ->
  publish_loop (S n) a l env s = (Raise e, after_advance l s, []).
Proof.
  intros He. cbn [publish_loop]. unfold bind.
  rewrite (tick_failure a l env s e He). reflexivity.
Qed.

(** Every entered loop stops in its first iteration, before anything is
    published. *)
Lemma publish_loop_entered (n : nat) (a : Args) (l : Locals) (env : Env)
      (s : State G) :
  exists e,
    g_score (fst (advance l (rng s))) = Raise e
    /\ publish_loop (S n) a l env s = (Raise e, after_advance l s, []).
Proof.
  destruct (g_score_error (fst (advance l (rng s)))) as [He | He];
    eexists; (split; [exact He | now apply publish_loop_failure]).
Qed.

Lemma publish_loop_events (n : nat) (a : Args) (l : Locals) (env : Env)
      (s : State G) :
  events (publish_loop n a l env s) = [].
Proof.
  destruct n as [|n]; [reflexivity|].
  destruct (publish_loop_entered n a l env s) as (e & _ & ->).
  reflexivity.
Qed.

End Loop.

(** ** Whole runs *)

Section Runs.

Context {G : Type} `{RandomSource G}.

Lemma setup_run (a : Args) (env : Env) (s : State G) :
  setup a env s =
  let s2 := {| rng := rng s; clock_reads := S (S (clock_reads s)) |} in
  let token :=
    registered_claims
      {| iat := clock env (clock_reads s);
         exp := clock env (S (clock_reads s)) + sixty_minutes;
         aud := project_id a |} in
  match read_file env (private_key_file a) with
  | None => (Raise (open_error env (private_key_file a)), s2,
             [EClient (client_id a)])
  | Some key =>
      if key_ok env key (algorithm a) then
        if connect_ok env (mqtt_bridge_hostname a) (mqtt_bridge_port a)
        then (Ok tt, s2,
              [EClient (client_id a);
               EUsernamePwSet "unused"
                              (jwt_encode env token key (algorithm a));
               ETlsSet (ca_certs a);
               EConnect (mqtt_bridge_hostname a) (mqtt_bridge_port a);
               ELoopStart])
        else (Raise (connect_error env (mqtt_bridge_hostname a)
                                   (mqtt_bridge_port a)), s2,
              [EClient (client_id a);
               EUsernamePwSet "unused"
                              (jwt_encode env token key (algorithm a));
               ETlsSet (ca_certs a);
               EConnect (mqtt_bridge_hostname a) (mqtt_bridge_port a)])
      else (Raise (encode_error env key (algorithm a)), s2,
            [EClient (client_id a)])
  end.
Proof.
  unfold setup, create_jwt, token_claims, open_read, encode, connect,
    bind, emit, ret, read_clock.
  cbn [rng clock_reads].
  destruct (read_file env (private_key_file a)) as [key|]; [|reflexivity].
  destruct (key_ok env key (algorithm a)); [|reflexivity].
  destruct (connect_ok env (mqtt_bridge_hostname a) (mqtt_bridge_port a));
    reflexivity.
Qed.

Lemma simulate_run (a : Args) (env : Env) (s : State G) :
  simulate a env s =
  publish_loop (Z.to_nat (num_messages a)) a (seeded_locals (device_id a))
               env
               {| rng := seeded_rng (device_id a);
                  clock_reads := clock_reads s |}.
Proof.
  unfold simulate, bind, random_seed, lift_draw, seeded_locals, seeded_rng.
  cbn [rng clock_reads].
  destruct (initial_locals (seed (device_id a))) as [l g].
  cbn [fst snd].
  destruct (publish_loop (Z.to_nat (num_messages a)) a l env
              {| rng := g; clock_reads := clock_reads s |})
    as [[r s2] t].
  reflexivity.
Qed.

Lemma main_run (a : Args) (env : Env) (s : State G) :
  main a env s =
  match setup a env s with
  | (Raise e, s1, t1) => (Raise e, s1, t1)
  | (Ok _, s1, t1) =>
      match simulate a env s1 with
      | (Raise e, s2, t2) => (Raise e, s2, t1 ++ t2)
      | (Ok _, s2, t2) => (Ok tt, s2, t1 ++ t2 ++ [ELoopStop])
      end
  end.
Proof.
  unfold main, bind, emit.
  destruct (setup a env s) as [[[u|e] s1] t1]; [|reflexivity].
  destruct (simulate a env s1) as [[[l|e] s2] t2]; reflexivity.
Qed.

Lemma setup_quiet (a : Args) (env : Env) (s : State G) :
  loop_stops (events (setup a env s)) = 0%nat
  /\ published (events (setup a env s)) = [].
Proof.
  rewrite setup_run. cbv zeta.
  destruct (read_file env (private_key_file a)) as [key|];
    [|split; reflexivity].
  destruct (key_ok env key (algorithm a)); [|split; reflexivity].
  destruct (connect_ok env (mqtt_bridge_hostname a) (mqtt_bridge_port a));
    split; reflexivity.
Qed.

(** A run of [main] either raises, and then [loop_stop] was never
    called, or returns, and then [loop_stop] is the last call and the
    loop had nothing to do.  In both cases nothing was published. *)
Lemma main_cases (a : Args) (env : Env) (s : State G) :
  (exists e st t,
      main a env s = (Raise e, st, t)
      /\ loop_stops t = 0%nat /\ published t = [])
  \/ (exists st t,
         main a env s = (Ok tt, st, t ++ [ELoopStop])
         /\ loop_stops t = 0%nat /\ published t = []
         /\ Z.to_nat (num_messages a) = 0%nat).
Proof.
  rewrite main_run.
  destruct (setup_quiet a env s) as [Hstop Hpub].
  destruct (setup a env s) as [[[u|e] s1] t1]; cbn [events snd] in *.
  2:{ left. exists e, s1, t1. auto. }
  rewrite simulate_run.
  destruct (Z.to_nat (num_messages a)) as [|n].
  - right. cbn [publish_loop ret app].
    eexists. exists t1. auto.
  - left.
    destruct (publish_loop_entered n a (seeded_locals (device_id a)) env
                {| rng := seeded_rng (device_id a);
                   clock_reads := clock_reads s1 |})
      as (e & _ & ->).
    do 2 eexists. exists t1. rewrite app_nil_r. auto.
Qed.

(** The loop reads the command line through the device id and the
    message type only, the clock through the time stamps only and
    never the state of the generator it did not draw from: its outcome,
    the generator it leaves and the readings it publishes do not depend
    on anything else. *)
Lemma publish_loop_independent (n : nat) (a a' : Args) (l : Locals)
      (env env' : Env) (s s' : State G) :
  rng s = rng s' ->
  outcome (publish_loop n a l env s) = outcome (publish_loop n a' l env' s')
  /\ rng (final_state (publish_loop n a l env s))
     = rng (final_state (publish_loop n a' l env' s'))
  /\ map readings (published (events (publish_loop n a l env s)))
     = map readings (published (events (publish_loop n a' l env' s'))).
Proof.
  revert l s s'. induction n as [|n IH]; intros l s s' Hs.
  - cbn. auto.
  - cbn [publish_loop]. unfold bind.
    rewrite !tick_run. unfold after_advance. rewrite <- Hs.
    destruct (g_score (fst (advance l (rng s)))) as [g|e].
    + specialize (IH (fst (advance l (rng s)))
                     {| rng := snd (advance l (rng s));
                        clock_reads := S (clock_reads s) |}
                     {| rng := snd (advance l (rng s));
                        clock_reads := S (clock_reads s') |}
                     eq_refl).
      destruct (publish_loop n a _ env _) as [[r1 s1] t1].
      destruct (publish_loop n a' _ env' _) as [[r2 s2] t2].
      cbn in IH |- *. destruct IH as (-> & -> & ->). auto.
    + cbn. auto.
Qed.

End Runs.

(** ** The number of publish calls (C4) *)

(** C4: no run of [main] hands a record to [client.publish], whatever
    the number of messages asked for. *)
Theorem nothing_is_published {G : Type} `{RandomSource G}
        (a : Args) (env : Env) (s : State G) :
  published (events (main a env s)) = []
  /\ List.length (published (events (main a env s))) = 0%nat.
Proof.
  assert (Hp : published (events (main a env s)) = []).
  { destruct (main_cases a env s)
      as [(e & st & t & -> & _ & Hp) | (st & t & -> & _ & Hp & _)].
    - exact Hp.
    - cbn [events snd].
      clear -Hp. induction t as [|ev t IH]; [reflexivity|].
      destruct ev; cbn in *; try discriminate; auto. }
  rewrite Hp. split; reflexivity.
Qed.

(** Three messages asked for on device "dev-1": the run raises in its
    first tick. *)
Example three_messages_requested :
  outcome (@main unit Sample.steady (Sample.args 3) Sample.env Sample.start)
  = Raise TypeError
  /\ published (events (@main unit Sample.steady (Sample.args 3) Sample.env
                              Sample.start))
     = [].
Proof. vm_compute. split; reflexivity. Qed.

(** ** Stopping the network loop (C9) *)

(** C9 (amended): [client.loop_stop()] is called at most once.  A run
    that returns called it exactly once, as its last call, hence after
    the loop; a run that raises never calls it. *)
Theorem loop_stop_once_on_return {G : Type} `{RandomSource G}
        (a : Args) (env : Env) (s : State G) :
  (exists e,
      outcome (main a env s) = Raise e
      /\ loop_stops (events (main a env s)) = 0%nat)
  \/ (outcome (main a env s) = Ok tt
      /\ loop_stops (events (main a env s)) = 1%nat
      /\ exists t, events (main a env s) = t ++ [ELoopStop]
                   /\ loop_stops t = 0%nat).
Proof.
  destruct (main_cases a env s)
    as [(e & st & t & -> & Hs & _) | (st & t & -> & Hs & _ & _)].
  - left. exists e. auto.
  - right. cbn [outcome events fst snd]. split; [reflexivity|]. split.
    + unfold loop_stops in *. rewrite filter_app, length_app, Hs.
      reflexivity.
    + exists t. auto.
Qed.

(** C9, as stated, fails: a run whose first tick raises has started the
    network loop and never stops it. *)
Lemma loop_stop_skipped_on_error :
  outcome (@main unit Sample.steady (Sample.args 1) Sample.env Sample.start)
  = Raise TypeError
  /\ In ELoopStart
        (events (@main unit Sample.steady (Sample.args 1) Sample.env
                       Sample.start))
  /\ loop_stops (events (@main unit Sample.steady (Sample.args 1) Sample.env
                               Sample.start))
     = 0%nat.
Proof.
  vm_compute. split; [reflexivity|]. split; [|reflexivity].
  do 4 right. left. reflexivity.
Qed.

(** ** The claim set of the token (C5) *)

Local Open Scope Z_scope.

Lemma whole_seconds_later (t : Z) :
  whole_seconds (t + sixty_minutes) = whole_seconds t + 3600.
Proof.
  unfold whole_seconds, sixty_minutes.
  change (60 * 60 * 1000000) with (3600 * 1000000).
  apply Z.div_add. discriminate.
Qed.

Lemma whole_seconds_le (t u : Z) :
  t <= u -> whole_seconds t <= whole_seconds u.
Proof. intros Htu. apply Z.div_le_mono; [reflexivity | exact Htu]. Qed.

(** C5 (amended): the token [create_jwt] returns carries the project id
    as audience, the whole second of a first clock reading as issue time
    and the whole second of a second clock reading plus 3600 seconds as
    expiry.  The expiry is the issue time plus sixty minutes when both
    readings fall in the same second; otherwise it is later by the number
    of seconds that began between the two readings. *)
Theorem token_window {G : Type} (project : string) (env : Env)
        (s : State G) :
  exists d c : Claims,
    outcome (token_claims project env s) = Ok d
    /\ c = registered_claims d
    /\ aud c = project
    /\ iat c = whole_seconds (clock env (clock_reads s))
    /\ exp c = whole_seconds (clock env (S (clock_reads s))) + 3600
    /\ exp c - iat c
       = 3600
         + (whole_seconds (clock env (S (clock_reads s)))
            - whole_seconds (clock env (clock_reads s)))
    /\ (whole_seconds (clock env (S (clock_reads s)))
        = whole_seconds (clock env (clock_reads s)) ->
        exp c = iat c + 3600)
    /\ (clock env (clock_reads s) <= clock env (S (clock_reads s)) ->
        iat c + 3600 <= exp c)
    /\ forall key_file alg key,
        read_file env key_file = Some key ->
        key_ok env key alg = true ->
        outcome (create_jwt project key_file alg env s)
        = Ok (jwt_encode env c key alg).
Proof.
  exists {| iat := clock env (clock_reads s);
            exp := clock env (S (clock_reads s)) + sixty_minutes;
            aud := project |}.
  eexists. split; [reflexivity|]. split; [reflexivity|].
  cbn [registered_claims aud iat exp]. rewrite whole_seconds_later.
  split; [reflexivity|]. split; [reflexivity|]. split; [reflexivity|].
  split; [lia|]. split; [lia|]. split.
  - intros Hle. apply whole_seconds_le in Hle. lia.
  - intros key_file alg key Hf Hk.
    unfold create_jwt, token_claims, open_read, encode, bind, read_clock, ret,
      outcome.
    cbn [rng clock_reads]. rewrite Hf, Hk. reflexivity.
Qed.

(** C5, as stated, fails: when the first call of [utcnow()] falls in the
    last microsecond of a second and the second call one microsecond
    later, the token, whatever function signs it, expires 3601 seconds
    after its issue time. *)
Lemma expiry_after_second_boundary :
  clock (Sample.env_boundary (fun _ _ _ => ""%string)) 0 = 1609459200999999
  /\ clock (Sample.env_boundary (fun _ _ _ => ""%string)) 1 = 1609459201000000
  /\ (forall sign,
         outcome (@create_jwt unit "proj" "rsa_private.pem" "RS256"
                              (Sample.env_boundary sign) Sample.start)
         = Ok (sign {| iat := 1609459200;
                       exp := 1609459200 + 3601;
                       aud := "proj" |}
                    "key"%string "RS256"%string))
  /\ (1609459200 + 3601 =? 1609459200 + 3600) = false.
Proof.
  split; [reflexivity|]. split; [reflexivity|].
  split; [intros sign; reflexivity | reflexivity].
Qed.

(** ** Expiry of the token during the session (C3) *)

Section Expiry.

Context {G : Type} `{RandomSource G}.

Lemma setup_outcome (a : Args) (env : Env) (s : State G) :
  outcome (setup a env s) =
  match read_file env (private_key_file a) with
  | None => Raise (open_error env (private_key_file a))
  | Some key =>
      if key_ok env key (algorithm a) then
        if connect_ok env (mqtt_bridge_hostname a) (mqtt_bridge_port a)
        then Ok tt
        else Raise (connect_error env (mqtt_bridge_hostname a)
                                  (mqtt_bridge_port a))
      else Raise (encode_error env key (algorithm a))
  end
  /\ final_state (setup a env s)
     = {| rng := rng s; clock_reads := S (S (clock_reads s)) |}.
Proof.
  rewrite setup_run. cbv zeta.
  destruct (read_file env (private_key_file a)) as [key|];
    [|split; reflexivity].
  destruct (key_ok env key (algorithm a)); [|split; reflexivity].
  destruct (connect_ok env (mqtt_bridge_hostname a) (mqtt_bridge_port a));
    split; reflexivity.
Qed.

(** The outcome of [main] and the readings it publishes, from those of
    its two parts. *)
Lemma main_outcome (a : Args) (env : Env) (s : State G) :
  outcome (main a env s) =
  match outcome (setup a env s) with
  | Raise e => Raise e
  | Ok _ =>
      match outcome (simulate a env (final_state (setup a env s))) with
      | Raise e => Raise e
      | Ok _ => Ok tt
      end
  end
  /\ map readings (published (events (main a env s))) =
     match outcome (setup a env s) with
     | Raise e => []
     | Ok _ =>
         map readings
             (published
                (events (simulate a env (final_state (setup a env s)))))
     end.
Proof.
  rewrite main_run.
  destruct (setup_quiet a env s) as [_ Hpub].
  destruct (setup a env s) as [[[u|e] s1] t1];
    cbn [outcome final_state events fst snd] in *.
  2:{ rewrite Hpub. split; reflexivity. }
  assert (Happ : forall t, published (t1 ++ t) = published t).
  { clear -Hpub. induction t1 as [|ev t1 IH]; intros t; [reflexivity|].
    destruct ev; cbn in *; try discriminate; auto. }
  destruct (simulate a env s1) as [[[l|e] s2] t2];
    cbn [outcome final_state events fst snd]; rewrite Happ;
    split; try reflexivity.
  clear. induction t2 as [|ev t2 IH]; [reflexivity|].
  destruct ev; cbn in *; congruence.
Qed.

End Expiry.

(** C3 (amended): the session never looks at the expiry of its token.
    The outcome of [main], and of the loop from any state, is the same
    under every clock; the step that publishes a record always publishes
    it, whatever the time; and no exception of the script is a
    credential-expiry error. *)
Theorem expiry_is_never_checked {G : Type} `{RandomSource G}
        (a : Args) (env : Env) (c : nat -> Z) (s : State G) :
  outcome (main a (with_clock c env) s) = outcome (main a env s)
  /\ (forall n l (s' : State G),
         outcome (publish_loop n a l (with_clock c env) s')
         = outcome (publish_loop n a l env s'))
  /\ (forall l g (s' : State G),
         outcome (publish_record a l g env s') = Ok tt
         /\ List.length (published (events (publish_record a l g env s')))
            = 1%nat)
  /\ (forall e, exn_name e <> "CredentialExpiredError"%string).
Proof.
  split; [|split; [|split]].
  - destruct (main_outcome a (with_clock c env) s) as [-> _].
    destruct (main_outcome a env s) as [-> _].
    destruct (setup_outcome a (with_clock c env) s) as [-> ->].
    destruct (setup_outcome a env s) as [-> ->].
    cbn [with_clock read_file open_error key_ok encode_error connect_ok
           connect_error].
    rewrite !simulate_run.
    destruct (publish_loop_independent
                (Z.to_nat (num_messages a)) a a
                (seeded_locals (device_id a)) (with_clock c env) env
                {| rng := seeded_rng (device_id a);
                   clock_reads :=
                     clock_reads
                       {| rng := rng s;
                          clock_reads := S (S (clock_reads s)) |} |}
                _ eq_refl) as [-> _].
    reflexivity.
  - intros n l s'.
    now destruct (publish_loop_independent n a a l (with_clock c env) env
                    s' s' eq_refl) as [-> _].
  - intros l g s'. rewrite publish_record_run. split; reflexivity.
  - intros e. destruct e; discriminate.
Qed.

(** C3, as stated, fails: with a token that expired two hours before the
    first tick, the run of one message raises [TypeError], which is not a
    credential-expiry error, and the publishing step of the loop body
    still hands its record to the client at that time. *)
Lemma expired_token_not_detected :
  outcome (@token_claims unit "proj" Sample.env_stalled Sample.start)
  = Ok {| iat := 1609459200000000;
          exp := 1609459200000001 + 3600000000;
          aud := "proj" |}
  /\ (1609459200000001 + 3600000000 < clock Sample.env_stalled 2)%Z
  /\ outcome (@main unit Sample.steady (Sample.args 1) Sample.env_stalled
                    Sample.start)
     = Raise TypeError
  /\ exn_name TypeError <> "CredentialExpiredError"%string
  /\ List.length
       (published
          (events (@publish_record unit (Sample.args 1) Sample.locals1
                                   (PyFloat 0) Sample.env_stalled
                                   {| rng := tt; clock_reads := 2 |})))
     = 1%nat.
Proof.
  split; [reflexivity|]. split; [reflexivity|].
  split; [vm_compute; reflexivity|]. split; [discriminate | reflexivity].
Qed.

(** ** Identity fields and telemetry (C10) *)

Section Identity.

Context {G : Type} `{RandomSource G}.

Lemma publish_loop_identity (n : nat) (p c r : string) (a : Args)
      (l : Locals) (env : Env) (s : State G) :
  publish_loop n (with_identity p c r a) l env s = publish_loop n a l env s.
Proof.
  revert l s. induction n as [|n IH]; intros l s; [reflexivity|].
  cbn [publish_loop]. unfold bind.
  change (tick (with_identity p c r a) l env s) with (tick a l env s).
  destruct (tick a l env s) as [[[l'|e] s1] t1]; [|reflexivity].
  now rewrite IH.
Qed.

Lemma simulate_identity (p c r : string) (a : Args) (env : Env)
      (s : State G) :
  simulate (with_identity p c r a) env s = simulate a env s.
Proof.
  rewrite !simulate_run. cbn [with_identity device_id num_messages].
  apply publish_loop_identity.
Qed.

End Identity.

(** C10: replacing the project id, the cloud region and the registry id
    of a command line changes nothing in the telemetry.  The record built
    from given locals and a given index is the same record, and its
    thirteen readings are those locals and that index; the step that
    publishes it, the loop body and the loop from any state, and the whole
    simulation, which seeds the generator from the device id, are the
    same computations; so are the outcome of the run and the readings it
    publishes. *)
Theorem telemetry_ignores_identity {G : Type} `{RandomSource G}
        (p c r : string) (a : Args) (env : Env) (s : State G) :
  (forall now l g,
      make_payload (with_identity p c r a) now l g = make_payload a now l g
      /\ readings (make_payload (with_identity p c r a) now l g)
         = (quantities l, g))
  /\ mqtt_topic (with_identity p c r a) = mqtt_topic a
  /\ (forall l g (s' : State G),
         publish_record (with_identity p c r a) l g env s'
         = publish_record a l g env s')
  /\ (forall l (s' : State G),
         tick (with_identity p c r a) l env s' = tick a l env s')
  /\ (forall n l (s' : State G),
         publish_loop n (with_identity p c r a) l env s'
         = publish_loop n a l env s')
  /\ (forall s' : State G,
         simulate (with_identity p c r a) env s' = simulate a env s'
         /\ simulate a env s'
            = publish_loop (Z.to_nat (num_messages a)) a
                           (seeded_locals (device_id a)) env
                           {| rng := seeded_rng (device_id a);
                              clock_reads := clock_reads s' |})
  /\ outcome (main (with_identity p c r a) env s) = outcome (main a env s)
  /\ map readings (published (events (main (with_identity p c r a) env s)))
     = map readings (published (events (main a env s))).
Proof.
  split; [intros; split; reflexivity|].
  split; [reflexivity|].
  split; [reflexivity|].
  split; [reflexivity|].
  split; [intros; apply publish_loop_identity|].
  split; [intros; split; [apply simulate_identity | apply simulate_run]|].
  destruct (main_outcome (with_identity p c r a) env s) as [-> ->].
  destruct (main_outcome a env s) as [-> ->].
  destruct (setup_outcome (with_identity p c r a) env s) as [-> ->].
  destruct (setup_outcome a env s) as [-> ->].
  cbn [with_identity private_key_file algorithm mqtt_bridge_hostname
         mqtt_bridge_port].
  rewrite simulate_identity.
  split; reflexivity.
Qed.

(** ** Draws *)

Lemma dbind_run {G A B : Type} (c : Draw G A) (k : A -> Draw G B) (g : G) :
  dbind c k g = k (fst (c g)) (snd (c g)).
Proof. unfold dbind. destruct (c g). reflexivity. Qed.

(** ** The trend is kept *)

Section Trend.

Context {G : Type} `{RandomSource G}.

Lemma advance_trend (l : Locals) (g : G) :
  temperature_trend (fst (advance l g)) = temperature_trend l.
Proof. unfold advance. rewrite !dbind_run. reflexivity. Qed.

Lemma advance_n_trend (k : nat) (l : Locals) (g : G) :
  temperature_trend (fst (advance_n k l g)) = temperature_trend l.
Proof.
  revert l g. induction k as [|k IH]; intros l g; [reflexivity|].
  cbn [advance_n]. rewrite dbind_run, IH. apply advance_trend.
Qed.

End Trend.

(** ** Signs in binary64 arithmetic *)

Module Binary64.

Lemma SFsub_add_opp (x y : spec_float) :
  SFsub prec emax x y = SFadd prec emax x (SFopp y).
Proof.
  destruct x as [sx|sx| |sx mx ex], y as [sy|sy| |sy my ey];
    cbn [SFsub SFadd SFopp]; try reflexivity;
    destruct sx, sy; reflexivity.
Qed.

Lemma binary_round_aux_opp (s : bool) (m e : Z) (l : location) :
  binary_round_aux prec emax (negb s) m e l
  = SFopp (binary_round_aux prec emax s m e l).
Proof.
  unfold binary_round_aux.
  destruct (shr_fexp prec emax m e l) as [mrs' e'].
  destruct (shr_fexp prec emax _ e' loc_Exact) as [mrs'' e''].
  destruct (shr_m mrs''); try reflexivity.
  destruct (e'' <=? emax - prec)%Z; reflexivity.
Qed.

Lemma SFmul_opp_l (x y : spec_float) :
  SFmul prec emax (SFopp x) y = SFopp (SFmul prec emax x y).
Proof.
  destruct x as [sx|sx| |sx mx ex], y as [sy|sy| |sy my ey];
    cbn [SFmul SFopp]; try reflexivity;
    try (destruct sx, sy; reflexivity).
  rewrite <- binary_round_aux_opp. f_equal. destruct sx, sy; reflexivity.
Qed.

Lemma sub_add_opp (x y : float) : (x - y = x + - y)%float.
Proof.
  apply Prim2SF_inj. rewrite sub_spec, add_spec, opp_spec.
  apply SFsub_add_opp.
Qed.

Lemma mul_opp_l (x y : float) : (- x * y = - (x * y))%float.
Proof.
  apply Prim2SF_inj. rewrite mul_spec, !opp_spec, mul_spec.
  apply SFmul_opp_l.
Qed.

Lemma opp_involutive (x : float) : (- - x = x)%float.
Proof.
  apply Prim2SF_inj. rewrite !opp_spec.
  destruct (Prim2SF x) as [s|s| |s m e]; cbn; try reflexivity;
    now rewrite negb_involutive.
Qed.

(** Subtracting a signed draw is adding the draw with the sign
    reversed. *)
Lemma sub_signed (b : bool) (x n : float) :
  (x - float_of_int (if b then 1 else -1) * n
   = x + float_of_int (- (if b then 1 else -1)) * n)%float.
Proof.
  rewrite sub_add_opp, <- mul_opp_l.
  destruct b.
  - reflexivity.
  - change (float_of_int (-1)) with (- float_of_int 1)%float.
    now rewrite opp_involutive.
Qed.

End Binary64.

(** ** Rounding to binary64 keeps representable bounds *)

Module Rounding.

Import Format.
Local Open Scope Z_scope.

Lemma digits2_size (p : positive) : digits2_pos p = Pos.size p.
Proof. induction p; cbn; now rewrite ?IHp. Qed.

Lemma digits_bounds (p : positive) :
  2 ^ (Zpos (digits2_pos p) - 1) <= Zpos p < 2 ^ Zpos (digits2_pos p).
Proof.
  rewrite digits2_size. split.
  - pose proof (Pos.size_le p) as Hle.
    apply Pos2Z.pos_le_pos in Hle. rewrite Pos2Z.inj_pow in Hle.
    replace (Zpos (Pos.size p)) with (Zpos (Pos.size p) - 1 + 1) in Hle by lia.
    rewrite Z.pow_add_r in Hle by lia.
    change (Zpos p~0) with (2 * Zpos p) in Hle. lia.
  - pose proof (Pos.size_gt p) as Hgt.
    apply Pos2Z.pos_lt_pos in Hgt. now rewrite Pos2Z.inj_pow in Hgt.
Qed.

(** Shifting right by one: the mantissa is halved. *)
Lemma shr_1_m (mrs : shr_record) :
  0 <= shr_m mrs -> shr_m (shr_1 mrs) = shr_m mrs / 2.
Proof.
  destruct mrs as [m r s]. cbn [shr_m]. intros Hm.
  rewrite <- Z.div2_div.
  destruct m as [|p|p]; [reflexivity| |lia].
  destruct p; reflexivity.
Qed.

Lemma shr_1_exact (mrs : shr_record) :
  0 <= shr_m mrs -> Z.even (shr_m mrs) = true ->
  shr_r mrs = false -> shr_s mrs = false ->
  shr_r (shr_1 mrs) = false /\ shr_s (shr_1 mrs) = false.
Proof.
  destruct mrs as [m r s]. cbn [shr_m shr_r shr_s].
  intros Hm He -> ->.
  destruct m as [|p|p]; [split; reflexivity| |lia].
  destruct p; try discriminate; split; reflexivity.
Qed.

Lemma iter_pos_nat {A : Type} (f : A -> A) (p : positive) (x : A) :
  iter_pos f p x = Nat.iter (Pos.to_nat p) f x.
Proof.
  revert x. induction p as [p IH|p IH|]; intros x; cbn [iter_pos].
  - rewrite !IH, Pos2Nat.inj_xI, <- Nat.iter_add, <- Nat.iter_succ_r.
    f_equal. lia.
  - rewrite !IH, Pos2Nat.inj_xO, <- Nat.iter_add. f_equal. lia.
  - reflexivity.
Qed.

Lemma iter_shr_m (k : nat) (mrs : shr_record) :
  0 <= shr_m mrs ->
  shr_m (Nat.iter k shr_1 mrs) = shr_m mrs / 2 ^ Z.of_nat k.
Proof.
  intros Hm. induction k as [|k IH].
  - cbn. now rewrite Z.div_1_r.
  - cbn [Nat.iter nat_rect]. rewrite shr_1_m.
    + change (nat_rect _ mrs (fun _ => shr_1) k) with (Nat.iter k shr_1 mrs).
      rewrite IH, Nat2Z.inj_succ, Z.pow_succ_r by lia.
      rewrite Z.div_div by lia. f_equal. lia.
    + change (nat_rect _ mrs (fun _ => shr_1) k) with (Nat.iter k shr_1 mrs).
      rewrite IH. apply Z.div_pos; lia.
Qed.

Lemma iter_shr_exact (k : nat) (mrs : shr_record) :
  0 <= shr_m mrs -> shr_m mrs mod 2 ^ Z.of_nat k = 0 ->
  shr_r mrs = false -> shr_s mrs = false ->
  shr_r (Nat.iter k shr_1 mrs) = false /\ shr_s (Nat.iter k shr_1 mrs) = false.
Proof.
  intros Hm. induction k as [|k IH]; intros Hmod Hr Hs.
  - now split.
  - assert (Hpow : 0 < 2 ^ Z.of_nat k) by (apply Z.pow_pos_nonneg; lia).
    rewrite Nat2Z.inj_succ, Z.pow_succ_r in Hmod by lia.
    assert (Hdiv : shr_m mrs = 2 * 2 ^ Z.of_nat k * (shr_m mrs / (2 * 2 ^ Z.of_nat k))).
    { pose proof (Z.div_mod (shr_m mrs) (2 * 2 ^ Z.of_nat k)). lia. }
    assert (Hmod' : shr_m mrs mod 2 ^ Z.of_nat k = 0).
    { rewrite Hdiv.
      replace (2 * 2 ^ Z.of_nat k * (shr_m mrs / (2 * 2 ^ Z.of_nat k)))
        with (2 * (shr_m mrs / (2 * 2 ^ Z.of_nat k)) * 2 ^ Z.of_nat k) by lia.
      apply Z.mod_mul. lia. }
    destruct (IH Hmod' Hr Hs) as [Hr' Hs'].
    cbn [Nat.iter nat_rect].
    change (nat_rect _ mrs (fun _ => shr_1) k) with (Nat.iter k shr_1 mrs).
    apply shr_1_exact; auto.
    + rewrite iter_shr_m by exact Hm. apply Z.div_pos; lia.
    + rewrite iter_shr_m by exact Hm.
      rewrite Hdiv.
      replace (2 * 2 ^ Z.of_nat k * (shr_m mrs / (2 * 2 ^ Z.of_nat k)))
        with (2 * (shr_m mrs / (2 * 2 ^ Z.of_nat k)) * 2 ^ Z.of_nat k) by lia.
      rewrite Z.div_mul by lia. rewrite Z.even_mul. reflexivity.
Qed.


Lemma fexp_eq (e : Z) : fexp prec emax e = Z.max (e - 53) (-1074).
Proof. reflexivity. Qed.

Lemma shr_spec (m e n : Z) :
  0 <= m ->
  snd (shr (Build_shr_record m false false) e n) = e + Z.max 0 n
  /\ shr_m (fst (shr (Build_shr_record m false false) e n))
     = m / 2 ^ Z.max 0 n
  /\ (m mod 2 ^ Z.max 0 n = 0 ->
      loc_of_shr_record (fst (shr (Build_shr_record m false false) e n))
      = loc_Exact).
Proof.
  intros Hm. destruct n as [|p|p]; cbn [shr fst snd].
  - rewrite Z.max_l, Z.add_0_r, Z.pow_0_r, Z.div_1_r by lia. auto.
  - rewrite Z.max_r by lia. rewrite iter_pos_nat.
    split; [reflexivity|].
    rewrite <- (positive_nat_Z p). split.
    + now apply iter_shr_m.
    + intros Hmod.
      destruct (iter_shr_exact (Pos.to_nat p)
                  (Build_shr_record m false false) Hm Hmod eq_refl eq_refl)
        as [Hr Hs].
      destruct (Nat.iter _ _ _) as [m' r' s']. cbn in Hr, Hs.
      now subst.
  - rewrite Z.max_l, Z.add_0_r, Z.pow_0_r, Z.div_1_r by lia. auto.
Qed.

Lemma round_nearest_even_bounds (q : Z) (l : location) :
  q <= round_nearest_even q l <= q + 1.
Proof.
  destruct l as [|[| |]]; cbn; try lia.
  destruct (Z.even q); lia.
Qed.

Lemma binary_round_aux_steps (M E : Z) :
  0 < M ->
  let k := Z.max 0 (fexp prec emax (Zdigits2 M + E) - E) in
  exists m1,
    M / 2 ^ k <= m1 <= M / 2 ^ k + 1
    /\ (M mod 2 ^ k = 0 -> m1 = M / 2 ^ k)
    /\ binary_round_aux prec emax false M E loc_Exact
       = rounded (m1 / 2 ^ Z.max 0 (fexp prec emax (Zdigits2 m1 + (E + k))
                                    - (E + k)))
                 (E + k + Z.max 0 (fexp prec emax (Zdigits2 m1 + (E + k))
                                   - (E + k))).
Proof.
  intros HM k.
  unfold binary_round_aux, shr_fexp. cbn [shr_record_of_loc].
  destruct (shr_spec M E (fexp prec emax (Zdigits2 M + E) - E))
    as (He & Hm & Hx); [lia|].
  fold k in He, Hm, Hx.
  destruct (shr _ E _) as [mrs' e']. cbn [fst snd] in He, Hm, Hx.
  subst e'.
  set (m1 := round_nearest_even (shr_m mrs') (loc_of_shr_record mrs')).
  assert (Hq : 0 <= M / 2 ^ k).
  { apply Z.div_pos; [lia|]. apply Z.pow_pos_nonneg; lia. }
  assert (Hm1 : M / 2 ^ k <= m1 <= M / 2 ^ k + 1).
  { rewrite <- Hm. apply round_nearest_even_bounds. }
  exists m1. split; [exact Hm1|]. split.
  { intros Hmod. unfold m1. rewrite (Hx Hmod), Hm. reflexivity. }
  destruct (shr_spec m1 (E + k)
              (fexp prec emax (Zdigits2 m1 + (E + k)) - (E + k)))
    as (He1 & Hm2 & _); [lia|].
  destruct (shr _ (E + k) _) as [mrs'' e'']. cbn [fst snd] in He1, Hm2.
  subst e''. rewrite Hm2. reflexivity.
Qed.


Lemma Zdigits2_bounds (m : Z) :
  0 < m -> 2 ^ (Zdigits2 m - 1) <= m < 2 ^ Zdigits2 m /\ 0 < Zdigits2 m.
Proof.
  destruct m as [|p|p]; try lia. intros _. cbn [Zdigits2].
  split; [apply digits_bounds | lia].
Qed.

Lemma pow2_pos (a : Z) : 0 <= a -> 0 < 2 ^ a.
Proof. intros. apply Z.pow_pos_nonneg; lia. Qed.

Lemma pow2_le (a b : Z) : a <= b -> 2 ^ a <= 2 ^ b.
Proof. intros. apply Z.pow_le_mono_r; lia. Qed.

Lemma pow2_add (a b : Z) : 0 <= a -> 0 <= b -> 2 ^ (a + b) = 2 ^ a * 2 ^ b.
Proof. intros. now apply Z.pow_add_r. Qed.

(** The digits of a positive number below a power of two. *)
Lemma Zdigits2_le (m n : Z) : 0 < m -> 0 <= n -> m < 2 ^ n -> Zdigits2 m <= n.
Proof.
  intros Hm Hn Hlt. destruct (Zdigits2_bounds m Hm) as [[Hlo _] Hd].
  destruct (Z_le_gt_dec (Zdigits2 m) n) as [|Hgt]; [assumption|].
  pose proof (pow2_le n (Zdigits2 m - 1) ltac:(lia)). lia.
Qed.

Lemma Zdigits2_ge (m n : Z) : 0 < m -> 2 ^ n <= m -> n < Zdigits2 m.
Proof.
  intros Hm Hle. destruct (Zdigits2_bounds m Hm) as [[_ Hhi] Hd].
  destruct (Z_lt_le_dec n (Zdigits2 m)) as [|Hge]; [assumption|].
  pose proof (pow2_le (Zdigits2 m) n Hge). lia.
Qed.

Ltac split_ands := repeat match goal with |- _ /\ _ => split end.

Lemma round_spec (M E : Z) :
  0 < M -> E <= fexp prec emax (Zdigits2 M + E) ->
  exists k k1 m1 m,
    0 <= k /\ 0 <= k1
    /\ binary_round_aux prec emax false M E loc_Exact
       = rounded m (E + k + k1)
    /\ -1074 <= E + k
    /\ 0 <= m < 2 ^ 53
    /\ (-1074 < E + k + k1 -> 2 ^ 52 <= m)
    /\ (-1074 < E + k -> 2 ^ (52 + k) <= M)
    /\ (m1 - 1) * 2 ^ k < M
    /\ m * 2 ^ k1 <= m1
    /\ M / 2 ^ (k + k1) <= m.
Proof.
  intros HM Hpre.
  destruct (binary_round_aux_steps M E HM) as (m1 & Hm1 & Hexact & Hbra).
  cbv zeta in *.
  destruct (Zdigits2_bounds M HM) as [[HdLo HdHi] Hd].
  set (d := Zdigits2 M) in *.
  rewrite !fexp_eq in *.
  rewrite (Z.max_r 0 (Z.max (d + E - 53) (-1074) - E)) in Hm1, Hexact, Hbra
    by lia.
  set (k := Z.max (d + E - 53) (-1074) - E) in *.
  assert (Hk : 0 <= k) by lia.
  assert (Hpk : 0 < 2 ^ k) by now apply pow2_pos.
  set (q := M / 2 ^ k) in *.
  assert (Hqlo : q * 2 ^ k <= M).
  { unfold q. rewrite Z.mul_comm. apply Z.mul_div_le. lia. }
  assert (Hqhi : M < (q + 1) * 2 ^ k).
  { unfold q. pose proof (Z.mod_pos_bound M (2 ^ k) Hpk).
    pose proof (Z.div_mod M (2 ^ k)). lia. }
  assert (Hq0 : 0 <= q) by (apply Z.div_pos; lia).
  assert (Hq53 : q < 2 ^ 53).
  { assert (H2d : 2 ^ d <= 2 ^ 53 * 2 ^ k).
    { rewrite <- pow2_add by lia. apply pow2_le. lia. }
    nia. }
  assert (Hnormal : -1074 < E + k -> 2 ^ (52 + k) <= M).
  { intros Hn. replace (52 + k) with (d - 1) by lia. exact HdLo. }
  assert (Hq52 : -1074 < E + k -> 2 ^ 52 <= q).
  { intros Hn. apply Z.div_le_lower_bound; [lia|].
    rewrite Z.mul_comm, <- pow2_add by lia. auto. }
  assert (Hceil : (m1 - 1) * 2 ^ k < M).
  { destruct (Z.eq_dec (M mod 2 ^ k) 0) as [Hz|Hnz].
    - rewrite (Hexact Hz). nia.
    - assert (q * 2 ^ k < M).
      { pose proof (Z.mod_pos_bound M (2 ^ k) Hpk).
        pose proof (Z.div_mod M (2 ^ k)). unfold q. lia. }
      nia. }
  destruct (Z.eq_dec m1 (2 ^ 53)) as [Hcarry|Hnocarry].
  - (* the rounded mantissa has one digit too many *)
    assert (Hd1 : Zdigits2 m1 = 54).
    { assert (53 < Zdigits2 m1) by (apply Zdigits2_ge; lia).
      assert (Zdigits2 m1 <= 54).
      { apply Zdigits2_le; lia. }
      lia. }
    rewrite Hd1 in Hbra.
    replace (Z.max 0 (Z.max (54 + (E + k) - 53) (-1074) - (E + k)))
      with 1 in Hbra by lia.
    exists k, 1, m1, (m1 / 2 ^ 1).
    rewrite Hcarry in *. change (2 ^ 53 / 2 ^ 1) with (2 ^ 52) in *.
    split_ands; try lia; try assumption.
    rewrite pow2_add, <- Z.div_div by lia. fold q.
    apply Z.div_le_upper_bound; lia.
  - assert (Hk1 : Z.max 0 (Z.max (Zdigits2 m1 + (E + k) - 53) (-1074)
                            - (E + k)) = 0).
    { destruct (Z.eq_dec m1 0) as [->|Hnz]; [cbn [Zdigits2]; lia|].
      assert (Zdigits2 m1 <= 53) by (apply Zdigits2_le; lia).
      lia. }
    rewrite Hk1 in Hbra. rewrite Z.pow_0_r, Z.div_1_r, Z.add_0_r in Hbra.
    exists k, 0, m1, m1.
    rewrite !Z.add_0_r, Z.pow_0_r.
    split_ands; try lia; try assumption.
Qed.


(** ** Canonical mantissas and the order of positive floats *)

Lemma valid_canon (s : bool) (p : positive) (e : Z) :
  valid_binary (S754_finite s p e) = true ->
  canon (Zpos p) e /\ e <= 971.
Proof.
  cbn [SpecFloat.valid_binary]. unfold bounded, canonical_mantissa.
  rewrite andb_true_iff, Z.eqb_eq, Z.leb_le, fexp_eq.
  intros [Hc He]. change (emax - prec) with 971 in He.
  destruct (digits_bounds p) as [Hlo Hhi].
  set (d := Zpos (digits2_pos p)) in *.
  assert (Hd : 0 < d) by (unfold d; lia).
  split; [|exact He]. unfold canon. split_ands; try lia.
  - pose proof (pow2_le d 53 ltac:(lia)). lia.
  - intros Hn. replace 52 with (d - 1) by lia. exact Hlo.
Qed.

(** Values are compared after scaling by a common power of two. *)
Lemma scale_split (e c c' : Z) :
  c <= c' -> c' <= e -> 2 ^ (e - c) = 2 ^ (e - c') * 2 ^ (c' - c).
Proof. intros. rewrite <- pow2_add by lia. f_equal. lia. Qed.

Lemma SFleb_of_le (p1 p2 : positive) (e1 e2 c : Z) :
  canon (Zpos p1) e1 -> canon (Zpos p2) e2 -> c <= e1 -> c <= e2 ->
  Zpos p1 * 2 ^ (e1 - c) <= Zpos p2 * 2 ^ (e2 - c) ->
  SFleb (S754_finite false p1 e1) (S754_finite false p2 e2) = true.
Proof.
  intros (Hm1 & He1 & Hn1) (Hm2 & He2 & Hn2) Hc1 Hc2 Hle.
  unfold SFleb. cbn [SFcompare].
  destruct (Z.compare_spec e1 e2) as [Heq|Hlt|Hgt]; [| reflexivity |].
  - subst e2.
    assert (0 < 2 ^ (e1 - c)) by (apply pow2_pos; lia).
    assert (Hp : (p1 <= p2)%positive) by nia.
    change (Pos.compare_cont Eq p1 p2) with (Pos.compare p1 p2).
    destruct (Pos.compare_spec p1 p2); try reflexivity. lia.
  - exfalso.
    rewrite (scale_split e1 c e2), Z.mul_assoc in Hle by lia.
    apply Z.mul_le_mono_pos_r in Hle; [|apply pow2_pos; lia].
    pose proof (pow2_le 1 (e1 - e2) ltac:(lia)) as Hpow.
    specialize (Hn1 ltac:(lia)).
    pose proof (Z.mul_le_mono_nonneg (2 ^ 52) (Zpos p1) (2 ^ 1)
                  (2 ^ (e1 - e2)) ltac:(lia) Hn1 ltac:(lia) Hpow).
    lia.
Qed.

Lemma le_of_SFleb (p1 p2 : positive) (e1 e2 c : Z) :
  canon (Zpos p1) e1 -> canon (Zpos p2) e2 -> c <= e1 -> c <= e2 ->
  SFleb (S754_finite false p1 e1) (S754_finite false p2 e2) = true ->
  Zpos p1 * 2 ^ (e1 - c) <= Zpos p2 * 2 ^ (e2 - c).
Proof.
  intros (Hm1 & He1 & Hn1) (Hm2 & He2 & Hn2) Hc1 Hc2.
  unfold SFleb. cbn [SFcompare].
  destruct (Z.compare_spec e1 e2) as [Heq|Hlt|Hgt]; [| |discriminate].
  - subst e2.
    change (Pos.compare_cont Eq p1 p2) with (Pos.compare p1 p2).
    assert (0 < 2 ^ (e1 - c)) by (apply pow2_pos; lia).
    destruct (Pos.compare_spec p1 p2); try discriminate; intros _; nia.
  - intros _.
    rewrite (scale_split e2 c e1), Z.mul_assoc by lia.
    apply Z.mul_le_mono_pos_r; [apply pow2_pos; lia|].
    pose proof (pow2_le 1 (e2 - e1) ltac:(lia)) as Hpow.
    specialize (Hn2 ltac:(lia)).
    pose proof (Z.mul_le_mono_nonneg (2 ^ 52) (Zpos p2) (2 ^ 1)
                  (2 ^ (e2 - e1)) ltac:(lia) Hn2 ltac:(lia) Hpow).
    lia.
Qed.


(** ** Rounding respects representable bounds *)

Lemma rounded_le (m e : Z) (pF : positive) (eF c : Z) :
  0 <= m < 2 ^ 53 -> -1074 <= e -> (-1074 < e -> 2 ^ 52 <= m) ->
  canon (Zpos pF) eF -> eF <= 971 -> c <= e -> c <= eF ->
  m * 2 ^ (e - c) <= Zpos pF * 2 ^ (eF - c) ->
  SFleb (rounded m e) (S754_finite false pF eF) = true.
Proof.
  intros Hm He Hn HF HeF Hc1 Hc2 Hle.
  destruct m as [|p|p]; cbn [rounded]; [reflexivity| |lia].
  change (emax - prec) with 971.
  destruct (Z.leb_spec e 971) as [Hfin|Hovf].
  - apply (SFleb_of_le p pF e eF c); auto.
    unfold canon. split_ands; auto; lia.
  - exfalso. destruct HF as (HmF & _ & _).
    rewrite (scale_split e c eF), Z.mul_assoc in Hle by lia.
    apply Z.mul_le_mono_pos_r in Hle; [|apply pow2_pos; lia].
    pose proof (pow2_le 1 (e - eF) ltac:(lia)) as Hpow.
    specialize (Hn ltac:(lia)).
    pose proof (Z.mul_le_mono_nonneg (2 ^ 52) (Zpos p) (2 ^ 1)
                  (2 ^ (e - eF)) ltac:(lia) Hn ltac:(lia) Hpow).
    lia.
Qed.

Lemma round_le_repr (M E : Z) (pF : positive) (eF c : Z) :
  0 < M -> E <= fexp prec emax (Zdigits2 M + E) ->
  canon (Zpos pF) eF -> eF <= 971 -> c <= E -> c <= eF ->
  M * 2 ^ (E - c) <= Zpos pF * 2 ^ (eF - c) ->
  SFleb (binary_round_aux prec emax false M E loc_Exact)
        (S754_finite false pF eF) = true.
Proof.
  intros HM Hpre HF HeF' Hc1 Hc2 Hle.
  destruct (round_spec M E HM Hpre)
    as (k & k1 & m1 & m & Hk & Hk1 & -> & He' & Hm & Hnorm & HnormM
        & Hceil & Hfloor1 & Hfloor).
  apply (rounded_le m (E + k + k1) pF eF c); auto; try lia.
  destruct HF as (HmF & HeF & HnF).
  assert (HPc : 0 < 2 ^ (E - c)) by (apply pow2_pos; lia).
  assert (HPk : 0 < 2 ^ k) by (apply pow2_pos; lia).
  assert (HPk1 : 0 < 2 ^ k1) by (apply pow2_pos; lia).
  destruct (Z_le_gt_dec (E + k) eF) as [Hcase|Hcase].
  - set (T := Zpos pF * 2 ^ (eF - (E + k))).
    assert (HT : Zpos pF * 2 ^ (eF - c) = T * 2 ^ k * 2 ^ (E - c)).
    { unfold T. rewrite (scale_split eF c (E + k)) by lia.
      replace (E + k - c) with (k + (E - c)) by lia.
      rewrite pow2_add by lia. ring. }
    rewrite HT in Hle |- *.
    apply Z.mul_le_mono_pos_r in Hle; [|exact HPc].
    assert (HmT : m1 <= T).
    { assert (Hlt : (m1 - 1) * 2 ^ k < T * 2 ^ k) by lia.
      apply Z.mul_lt_mono_pos_r in Hlt; [lia | exact HPk]. }
    replace (E + k + k1 - c) with (k1 + (k + (E - c))) by lia.
    rewrite !pow2_add by lia.
    replace (m * (2 ^ k1 * (2 ^ k * 2 ^ (E - c))))
      with (m * 2 ^ k1 * 2 ^ k * 2 ^ (E - c)) by ring.
    apply Z.mul_le_mono_nonneg_r; [lia|].
    apply Z.mul_le_mono_nonneg_r; lia.
  - exfalso. specialize (HnormM ltac:(lia)).
    assert (H1 : 2 ^ (52 + k) * 2 ^ (E - c) <= M * 2 ^ (E - c)).
    { apply Z.mul_le_mono_nonneg_r; lia. }
    rewrite <- pow2_add in H1 by lia.
    assert (H2 : 2 ^ (53 + (eF - c)) <= 2 ^ (52 + k + (E - c))).
    { apply pow2_le. lia. }
    rewrite pow2_add in H2 by lia.
    assert (H3 : Zpos pF * 2 ^ (eF - c) < 2 ^ 53 * 2 ^ (eF - c)).
    { apply Z.mul_lt_mono_pos_r; [apply pow2_pos|]; lia. }
    lia.
Qed.

Lemma round_ge_repr (M E : Z) (pF : positive) (eF c : Z) :
  0 < M -> E <= fexp prec emax (Zdigits2 M + E) ->
  canon (Zpos pF) eF -> c <= E -> c <= eF ->
  Zpos pF * 2 ^ (eF - c) <= M * 2 ^ (E - c) ->
  SFleb (S754_finite false pF eF)
        (binary_round_aux prec emax false M E loc_Exact) = true.
Proof.
  intros HM Hpre HF Hc1 Hc2 Hle.
  destruct (round_spec M E HM Hpre)
    as (k & k1 & m1 & m & Hk & Hk1 & -> & He' & Hm & Hnorm & HnormM
        & Hceil & Hfloor1 & Hfloor).
  pose proof HF as (HmF & HeF & HnF).
  assert (HPc : 0 < 2 ^ (E - c)) by (apply pow2_pos; lia).
  assert (HPkk : 0 < 2 ^ (k + k1)) by (apply pow2_pos; lia).
  set (e := E + k + k1) in *.
  assert (Hval : Zpos pF * 2 ^ (eF - c) <= m * 2 ^ (e - c)).
  { destruct (Z_le_gt_dec e eF) as [Hcase|Hcase].
    - set (T := Zpos pF * 2 ^ (eF - e)).
      assert (HT : Zpos pF * 2 ^ (eF - c) = T * 2 ^ (k + k1) * 2 ^ (E - c)).
      { unfold T. rewrite (scale_split eF c e) by lia.
        replace (e - c) with ((k + k1) + (E - c)) by lia.
        rewrite (pow2_add (k + k1) (E - c)) by lia. ring. }
      rewrite HT in Hle |- *.
      apply Z.mul_le_mono_pos_r in Hle; [|exact HPc].
      assert (HTm : T <= m).
      { apply Z.le_trans with (M / 2 ^ (k + k1)); [|exact Hfloor].
        apply Z.div_le_lower_bound; lia. }
      replace (e - c) with ((k + k1) + (E - c)) by lia.
      rewrite (pow2_add (k + k1) (E - c)) by lia.
      rewrite (Z.mul_assoc m).
      apply Z.mul_le_mono_nonneg_r; [lia|].
      apply Z.mul_le_mono_nonneg_r; lia.
    - specialize (Hnorm ltac:(lia)).
      rewrite (scale_split e c eF), Z.mul_assoc by lia.
      apply Z.mul_le_mono_nonneg_r; [apply Z.lt_le_incl, pow2_pos; lia|].
      pose proof (pow2_le 1 (e - eF) ltac:(lia)) as Hpow.
      pose proof (Z.mul_le_mono_nonneg (2 ^ 52) m (2 ^ 1)
                    (2 ^ (e - eF)) ltac:(lia) Hnorm ltac:(lia) Hpow).
      lia. }
  destruct m as [|p|p]; cbn [rounded]; [|  |lia].
  - exfalso. assert (0 < 2 ^ (eF - c)) by (apply pow2_pos; lia). nia.
  - change (emax - prec) with 971.
    destruct (Z.leb_spec e 971) as [Hfin|Hovf]; [|reflexivity].
    apply (SFleb_of_le pF p eF e c); auto; try lia.
    unfold canon. split_ands; auto; lia.
Qed.


(** ** Alignment of mantissas *)

Lemma iter_xO_val (p d : positive) :
  Zpos (Pos.iter xO p d) = Zpos p * 2 ^ Zpos d.
Proof.
  induction d as [|d IH] using Pos.peano_ind.
  - cbn. lia.
  - rewrite Pos.iter_succ, Pos2Z.inj_xO, IH, Pos2Z.inj_succ, Z.pow_succ_r
      by lia.
    ring.
Qed.

Lemma iter_xO_digits (p d : positive) :
  Zpos (digits2_pos (Pos.iter xO p d)) = Zpos (digits2_pos p) + Zpos d.
Proof.
  induction d as [|d IH] using Pos.peano_ind.
  - cbn. lia.
  - rewrite Pos.iter_succ. cbn [digits2_pos]. lia.
Qed.

Lemma shl_align_spec (p : positive) (e e' : Z) :
  snd (shl_align p e e') = Z.min e e'
  /\ Zpos (fst (shl_align p e e')) = Zpos p * 2 ^ (e - Z.min e e')
  /\ Zpos (digits2_pos (fst (shl_align p e e')))
     = Zpos (digits2_pos p) + (e - Z.min e e').
Proof.
  unfold shl_align. destruct (e' - e) as [|d|d] eqn:Hd; cbn [fst snd].
  - rewrite Z.min_l by lia. rewrite Z.sub_diag. cbn. lia.
  - rewrite Z.min_l by lia. rewrite Z.sub_diag. cbn. lia.
  - rewrite Z.min_r by lia. replace (e - e') with (Zpos d) by lia.
    split; [reflexivity|]. split; [apply iter_xO_val | apply iter_xO_digits].
Qed.

(** ** The shape of a rounded positive value *)

Lemma rounded_shape (m e : Z) :
  0 <= m ->
  rounded m e = S754_zero false
  \/ (exists p, rounded m e = S754_finite false p e)
  \/ rounded m e = S754_infinity false.
Proof.
  intros Hm. destruct m as [|p|p]; cbn [rounded]; [auto| |lia].
  destruct (e <=? emax - prec); eauto.
Qed.

(** ** Products with a factor between zero and one *)

Lemma SFmul_unit_bounds (px pr : positive) (ex er : Z) :
  canon (Zpos px) ex -> canon (Zpos pr) er -> er <= 971 ->
  2 ^ 52 <= Zpos pr ->
  SFleb (S754_finite false px ex) spec_one = true ->
  SFleb (SFmul prec emax (S754_finite false px ex)
               (S754_finite false pr er))
        (S754_finite false pr er) = true
  /\ (SFmul prec emax (S754_finite false px ex) (S754_finite false pr er)
      = S754_zero false
      \/ exists py ey,
          SFmul prec emax (S754_finite false px ex)
                (S754_finite false pr er)
          = S754_finite false py ey).
Proof.
  intros Hx Hr Her Hnr Hle1.
  cbn [SFmul xorb].
  assert (HM : 0 < Zpos (px * pr)) by lia.
  assert (Hpre : ex + er
                 <= fexp prec emax (Zdigits2 (Zpos (px * pr)) + (ex + er))).
  { assert (52 < Zdigits2 (Zpos (px * pr))).
    { apply Zdigits2_ge; [lia|]. rewrite Pos2Z.inj_mul. nia. }
    rewrite fexp_eq. lia. }
  assert (Hone : canon 4503599627370496 (-52)).
  { unfold canon. split_ands; lia. }
  set (c0 := Z.min ex (-52)).
  pose proof (le_of_SFleb px 4503599627370496 ex (-52) c0 Hx Hone
                ltac:(lia) ltac:(lia) Hle1) as Hv.
  assert (Hupper :
            SFleb (binary_round_aux prec emax false (Zpos (px * pr))
                                    (ex + er) loc_Exact)
                  (S754_finite false pr er) = true).
  { apply (round_le_repr _ _ pr er (c0 + er)); auto; try lia.
    replace (ex + er - (c0 + er)) with (ex - c0) by lia.
    replace (er - (c0 + er)) with (52 + (-52 - c0)) by lia.
    rewrite pow2_add by lia.
    rewrite Pos2Z.inj_mul.
    change (2 ^ 52) with 4503599627370496.
    replace (Zpos px * Zpos pr * 2 ^ (ex - c0))
      with (Zpos pr * (Zpos px * 2 ^ (ex - c0))) by ring.
    apply Z.mul_le_mono_nonneg_l; [lia|]. exact Hv. }
  split; [exact Hupper|].
  destruct (round_spec _ _ HM Hpre)
    as (k & k1 & m1 & m & _ & _ & Heq & _ & Hm & _).
  rewrite Heq in Hupper |- *.
  destruct (rounded_shape m (ex + er + k + k1) ltac:(lia))
    as [Hz | [[p Hp] | Hinf]]; eauto.
  rewrite Hinf in Hupper. discriminate.
Qed.


(** ** Sums of two positive floats *)

Lemma SFadd_pos (pb py : positive) (eb ey : Z) :
  -1074 <= eb -> -1074 <= ey ->
  exists (M : positive) (E : Z),
    SFadd prec emax (S754_finite false pb eb) (S754_finite false py ey)
    = binary_round_aux prec emax false (Zpos M) E loc_Exact
    /\ E <= fexp prec emax (Zdigits2 (Zpos M) + E)
    /\ -1074 <= E
    /\ Zpos M * 2 ^ (E + 1074)
       = Zpos pb * 2 ^ (eb + 1074) + Zpos py * 2 ^ (ey + 1074).
Proof.
  intros Heb Hey.
  cbn [SFadd cond_Zopp].
  set (ez := Z.min eb ey).
  destruct (shl_align_spec pb eb ez) as (_ & Ha & _).
  destruct (shl_align_spec py ey ez) as (_ & Hb & _).
  rewrite (Z.min_r eb ez) in Ha by lia.
  rewrite (Z.min_r ey ez) in Hb by lia.
  set (a := fst (shl_align pb eb ez)) in *.
  set (b := fst (shl_align py ey ez)) in *.
  change (Zpos a + Zpos b) with (Zpos (a + b)).
  cbn [binary_normalize]. unfold binary_round.
  set (s := (a + b)%positive).
  destruct (shl_align_spec s ez (fexp prec emax (Zpos (digits2_pos s) + ez)))
    as (Hz2 & Hmz & Hdz).
  destruct (shl_align s ez _) as [mz ez2]. cbn [fst snd] in Hz2, Hmz, Hdz.
  exists mz, ez2. split; [reflexivity|].
  rewrite <- Hz2 in Hmz, Hdz.
  rewrite fexp_eq in *.
  cbn [Zdigits2]. rewrite Hdz.
  split; [lia|]. split; [lia|].
  rewrite Hmz. unfold s. rewrite Pos2Z.inj_add, Ha, Hb.
  replace (eb + 1074) with ((eb - ez) + (ez + 1074)) by lia.
  replace (ey + 1074) with ((ey - ez) + (ez + 1074)) by lia.
  rewrite (pow2_add (eb - ez)), (pow2_add (ey - ez)) by lia.
  replace (ez + 1074) with ((ez - ez2) + (ez2 + 1074)) by lia.
  rewrite (pow2_add (ez - ez2)) by lia.
  ring.
Qed.

Lemma SFadd_lower (pb py pF : positive) (eb ey eF : Z) :
  canon (Zpos pb) eb -> canon (Zpos py) ey -> canon (Zpos pF) eF ->
  Zpos pF * 2 ^ (eF + 1074)
  <= Zpos pb * 2 ^ (eb + 1074) + Zpos py * 2 ^ (ey + 1074) ->
  SFleb (S754_finite false pF eF)
        (SFadd prec emax (S754_finite false pb eb)
               (S754_finite false py ey)) = true.
Proof.
  intros Hb Hy HF Hle.
  destruct (SFadd_pos pb py eb ey) as (M & E & -> & Hpre & HE & Hval);
    [apply Hb | apply Hy |].
  apply (round_ge_repr _ _ pF eF (-1074)); auto; try lia.
  - apply HF.
  - replace (eF - -1074) with (eF + 1074) by lia.
    replace (E - -1074) with (E + 1074) by lia. lia.
Qed.

Lemma SFadd_upper (pb py pF : positive) (eb ey eF : Z) :
  canon (Zpos pb) eb -> canon (Zpos py) ey -> canon (Zpos pF) eF ->
  eF <= 971 ->
  Zpos pb * 2 ^ (eb + 1074) + Zpos py * 2 ^ (ey + 1074)
  <= Zpos pF * 2 ^ (eF + 1074) ->
  SFleb (SFadd prec emax (S754_finite false pb eb)
               (S754_finite false py ey))
        (S754_finite false pF eF) = true.
Proof.
  intros Hb Hy HF HeF Hle.
  destruct (SFadd_pos pb py eb ey) as (M & E & -> & Hpre & HE & Hval);
    [apply Hb | apply Hy |].
  apply (round_le_repr _ _ pF eF (-1074)); auto; try lia.
  - apply HF.
  - replace (eF - -1074) with (eF + 1074) by lia.
    replace (E - -1074) with (E + 1074) by lia. lia.
Qed.


(** ** Base plus a fraction of a range, in binary64 *)

Lemma SFltb_SFleb (x y : spec_float) : SFltb x y = true -> SFleb x y = true.
Proof. unfold SFltb, SFleb. now destruct (SFcompare x y) as [[| |]|]. Qed.

Lemma SFleb_refl_finite (p : positive) (e : Z) :
  SFleb (S754_finite false p e) (S754_finite false p e) = true.
Proof.
  unfold SFleb. cbn [SFcompare]. rewrite Z.compare_refl.
  change (Pos.compare_cont Eq p p) with (Pos.compare p p).
  now rewrite Pos.compare_refl.
Qed.

Theorem affine_bounds (b r x : float) :
  exact_pair b r = true ->
  (0 <=? x)%float = true -> (x <? 1)%float = true ->
  (b <=? b + x * r)%float = true /\ (b + x * r <=? b + r)%float = true.
Proof.
  intros Hp H0 H1.
  rewrite leb_spec in H0. rewrite ltb_spec in H1.
  change (Prim2SF 0) with (S754_zero false) in H0.
  change (Prim2SF 1) with spec_one in H1.
  apply SFltb_SFleb in H1.
  rewrite !leb_spec, (add_spec b (x * r)), mul_spec.
  unfold exact_pair in Hp.
  pose proof (Prim2SF_valid b) as Vb.
  pose proof (Prim2SF_valid r) as Vr.
  pose proof (Prim2SF_valid (b + r)) as Vs.
  pose proof (Prim2SF_valid (x * r)) as Vy. rewrite mul_spec in Vy.
  pose proof (Prim2SF_valid x) as Vx.
  destruct (Prim2SF b) as [| | |[] pb eb]; try discriminate.
  destruct (Prim2SF r) as [| | |[] pr er]; try discriminate.
  destruct (Prim2SF (b + r)) as [| | |[] ps es]; try discriminate.
  apply andb_true_iff in Hp. destruct Hp as [Hnr Hsum].
  apply Z.leb_le in Hnr. apply Z.eqb_eq in Hsum.
  destruct (valid_canon _ _ _ Vb) as [Cb _].
  destruct (valid_canon _ _ _ Vr) as [Cr Her].
  destruct (valid_canon _ _ _ Vs) as [Cs Hes].
  assert (HBB : SFleb (S754_finite false pb eb) (S754_finite false pb eb)
                = true) by apply SFleb_refl_finite.
  assert (HBS : SFleb (S754_finite false pb eb) (S754_finite false ps es)
                = true).
  { apply (SFleb_of_le pb ps eb es (-1074)); auto;
      try apply Cb; try apply Cs.
    replace (eb - -1074) with (eb + 1074) by lia.
    replace (es - -1074) with (es + 1074) by lia.
    assert (0 < 2 ^ (er + 1074)) by (apply pow2_pos; destruct Cr; lia).
    nia. }
  unfold SF64add, SF64mul in *.
  destruct (Prim2SF x) as [sx|sx| |[] px ex]; try discriminate.
  - cbn [SFmul SFadd]. auto.
  - destruct sx; discriminate.
  - destruct (valid_canon _ _ _ Vx) as [Cx _].
    destruct (SFmul_unit_bounds px pr ex er Cx Cr Her Hnr H1)
      as [HY [HYz | (py & ey & HYf)]].
    + rewrite HYz. cbn [SFadd]. auto.
    + rewrite HYf in *.
      destruct (valid_canon _ _ _ Vy) as [Cy _].
      pose proof (le_of_SFleb py pr ey er (-1074) Cy Cr
                    ltac:(destruct Cy; lia) ltac:(destruct Cr; lia) HY)
        as Hyr.
      replace (ey - -1074) with (ey + 1074) in Hyr by lia.
      replace (er - -1074) with (er + 1074) in Hyr by lia.
      split.
      * apply SFadd_lower; auto.
        assert (0 < 2 ^ (ey + 1074)) by (apply pow2_pos; destruct Cy; lia).
        nia.
      * apply SFadd_upper; auto. lia.
Qed.

End Rounding.

(** ** The initial quantities (C7) *)

Section Initial.

Context {G : Type} `{RandomSource G}.

Lemma initial_quantities_formula (g : G) :
  quantities (fst (initial_locals g)) = initial_formula g.
Proof. unfold initial_locals. rewrite !dbind_run. reflexivity. Qed.

Lemma initial_bounds_exact :
  forallb (fun br => Format.exact_pair (fst br) (snd br)) initial_bounds
  = true.
Proof. vm_compute. reflexivity. Qed.

Lemma initial_formula_in_range (g : G) :
  unit_interval_source G ->
  Forall2 in_range initial_bounds (initial_formula g).
Proof.
  intros Hunit. unfold initial_formula, initial_bounds.
  cbn [combine seq map fst snd].
  repeat constructor; cbn [fst snd];
    (apply Rounding.affine_bounds;
     [vm_compute; reflexivity | apply Hunit | apply Hunit]).
Qed.

(** The simulation of a device is fixed by its identifier, the number
    of messages and the generator: the state the generator was in, the
    clock, the files and the rest of the command line play no part. *)
Lemma simulate_deterministic (a a' : Args) (env env' : Env)
      (s s' : State G) :
  device_id a = device_id a' -> num_messages a = num_messages a' ->
  outcome (simulate a env s) = outcome (simulate a' env' s')
  /\ rng (final_state (simulate a env s))
     = rng (final_state (simulate a' env' s'))
  /\ map readings (published (events (simulate a env s)))
     = map readings (published (events (simulate a' env' s'))).
Proof.
  intros Hd Hn. rewrite !simulate_run, Hd, Hn.
  now apply publish_loop_independent.
Qed.

End Initial.

(** C7 (amended): the generator is seeded from the device identifier and
    the twelve quantities are base plus draw times range for the first
    twelve draws; when [random()] answers in [0, 1), each of them lies
    between its base and its base plus its range, both ends included; two
    simulations of the same device with the same number of messages and
    the same generator have the same outcome, leave the generator in the
    same state and publish the same readings. *)
Theorem initial_quantities_in_range {G : Type} `{RandomSource G} :
  unit_interval_source G ->
  (forall dev,
      quantities (seeded_locals dev) = initial_formula (seed dev)
      /\ Forall2 in_range initial_bounds (quantities (seeded_locals dev)))
  /\ (forall a env (s : State G),
         simulate a env s
         = publish_loop (Z.to_nat (num_messages a)) a
                        (seeded_locals (device_id a)) env
                        {| rng := seeded_rng (device_id a);
                           clock_reads := clock_reads s |})
  /\ (forall a a' env env' (s s' : State G),
         device_id a = device_id a' -> num_messages a = num_messages a' ->
         outcome (simulate a env s) = outcome (simulate a' env' s')
         /\ rng (final_state (simulate a env s))
            = rng (final_state (simulate a' env' s'))
         /\ map readings (published (events (simulate a env s)))
            = map readings (published (events (simulate a' env' s')))).
Proof.
  intros Hunit. split; [|split].
  - intros dev. unfold seeded_locals. rewrite initial_quantities_formula.
    split; [reflexivity | now apply initial_formula_in_range].
  - intros. apply simulate_run.
  - intros. now apply simulate_deterministic.
Qed.

(** The theorem for the steady generator, whose [random()] is 0.75. *)
Lemma initial_quantities_in_range_witness :
  @unit_interval_source unit Sample.steady
  /\ ((forall dev,
          quantities (@seeded_locals unit Sample.steady dev)
          = @initial_formula unit Sample.steady (@seed unit Sample.steady dev)
          /\ Forall2 in_range initial_bounds
                     (quantities (@seeded_locals unit Sample.steady dev)))
      /\ (forall a env (s : State unit),
             @simulate unit Sample.steady a env s
             = @publish_loop unit Sample.steady (Z.to_nat (num_messages a)) a
                             (@seeded_locals unit Sample.steady (device_id a))
                             env
                             {| rng := @seeded_rng unit Sample.steady
                                                   (device_id a);
                                clock_reads := clock_reads s |})
      /\ (forall a a' env env' (s s' : State unit),
             device_id a = device_id a' ->
             num_messages a = num_messages a' ->
             outcome (@simulate unit Sample.steady a env s)
             = outcome (@simulate unit Sample.steady a' env' s')
             /\ rng (final_state (@simulate unit Sample.steady a env s))
                = rng (final_state (@simulate unit Sample.steady a' env' s'))
             /\ map readings
                    (published (events (@simulate unit Sample.steady a env s)))
                = map readings
                      (published
                         (events (@simulate unit Sample.steady a' env' s'))))).
Proof.
  refine ((fun Hu => conj Hu
             (@initial_quantities_in_range unit Sample.steady Hu)) _).
  intros g. split; reflexivity.
Defined.

(** C7, as stated, fails: when [random()] answers 1 - 2^-53, which is
    below one, the indoor temperature is rounded to 65, its base plus its
    range, outside the half-open interval (and so are nine other
    quantities, for instance the pressure). *)
Lemma initial_quantity_reaches_upper_end :
  @unit_interval_source unit Sample.edge
  /\ simulated_temp (@seeded_locals unit Sample.edge "dev-1") = 65%float
  /\ (simulated_temp (@seeded_locals unit Sample.edge "dev-1") <? 45 + 20)%float
     = false
  /\ sim_pressure (@seeded_locals unit Sample.edge "dev-1") = 1025%float.
Proof.
  split; [intros g; split; reflexivity|].
  vm_compute. repeat split.
Qed.


(** * Further properties of the script *)

From Stdlib Require Import Ascii.

(** ** Which exception the index expression raises *)

Module SquareRoot.

Import Format.

Lemma SFeqb_refl_iff (x : spec_float) :
  SFeqb x x = match x with S754_nan => false | _ => true end.
Proof.
  unfold SFeqb. destruct x as [s|s| |s m e]; cbn [SFcompare]; try reflexivity.
  - destruct s; reflexivity.
  - rewrite Z.compare_refl.
    change (Pos.compare_cont Eq m m) with (Pos.compare m m).
    rewrite Pos.compare_refl. now destruct s.
Qed.

Lemma is_nan_spec (x : float) :
  is_nan x = match Prim2SF x with S754_nan => true | _ => false end.
Proof.
  unfold is_nan. rewrite FloatAxioms.eqb_spec, SFeqb_refl_iff.
  now destruct (Prim2SF x).
Qed.

(** Shifting keeps a mantissa non-negative. *)
Lemma shr_nonneg (mrs : shr_record) (e n : Z) :
  0 <= shr_m mrs -> 0 <= shr_m (fst (shr mrs e n)).
Proof.
  intros Hm. destruct n as [|p|p]; cbn [shr fst]; try assumption.
  rewrite Rounding.iter_pos_nat, Rounding.iter_shr_m by assumption.
  apply Z.div_pos; [assumption | apply Rounding.pow2_pos; lia].
Qed.

Lemma shr_record_of_loc_m (m : Z) (l : location) :
  shr_m (shr_record_of_loc m l) = m.
Proof. now destruct l as [|[| |]]. Qed.

Lemma binary_round_aux_not_nan (s : bool) (m e : Z) (l : location) :
  0 <= m -> binary_round_aux prec emax s m e l <> S754_nan.
Proof.
  intros Hm. unfold binary_round_aux, shr_fexp.
  pose proof (shr_nonneg (shr_record_of_loc m l) e
                (fexp prec emax (Zdigits2 m + e) - e)) as H1.
  rewrite shr_record_of_loc_m in H1. specialize (H1 Hm).
  destruct (shr (shr_record_of_loc m l) e _) as [mrs' e']. cbn [fst] in H1.
  pose proof (Rounding.round_nearest_even_bounds (shr_m mrs')
                (loc_of_shr_record mrs')) as H2.
  set (m1 := round_nearest_even (shr_m mrs') (loc_of_shr_record mrs')) in *.
  pose proof (shr_nonneg (shr_record_of_loc m1 loc_Exact) e'
                (fexp prec emax (Zdigits2 m1 + e') - e')) as H3.
  rewrite shr_record_of_loc_m in H3. specialize (H3 ltac:(lia)).
  destruct (shr (shr_record_of_loc m1 loc_Exact) e' _) as [mrs'' e''].
  cbn [fst] in H3.
  destruct (shr_m mrs'') as [|p|p]; [discriminate| |lia].
  destruct (e'' <=? emax - prec); discriminate.
Qed.

Lemma binary_round_aux_not_negative (m e : Z) (l : location) :
  SFltb (binary_round_aux prec emax false m e l) (S754_zero false) = false.
Proof.
  unfold binary_round_aux.
  destruct (shr_fexp prec emax m e l) as [mrs' e'].
  destruct (shr_fexp prec emax _ e' loc_Exact) as [mrs'' e''].
  destruct (shr_m mrs''); try reflexivity.
  destruct (e'' <=? emax - prec); reflexivity.
Qed.

Lemma sqrt_core_nonneg (m : positive) (e : Z) :
  0 <= fst (fst (SFsqrt_core_binary prec emax (Zpos m) e)).
Proof.
  unfold SFsqrt_core_binary.
  set (m' := match _ - _ with Zpos _ => _ | Z0 => _ | Zneg _ => _ end).
  pose proof (Z.sqrtrem_sqrt m') as Hs.
  destruct (Z.sqrtrem m') as [q r]. cbn [fst] in *. subst q.
  apply Z.sqrt_nonneg.
Qed.

(** [math.sqrt] of a float: a domain error exactly below zero. *)
Lemma math_sqrt_float (x : float) :
  math_sqrt (PyFloat x)
  = if (x <? 0)%float then Raise ValueError else Ok (PyFloat (PrimFloat.sqrt x)).
Proof.
  unfold math_sqrt. cbn [to_float].
  rewrite !is_nan_spec, sqrt_spec, ltb_spec.
  change (Prim2SF 0) with (S754_zero false).
  unfold SF64sqrt.
  destruct (Prim2SF x) as [s|s| |s m e]; cbn [SFsqrt]; try reflexivity.
  - destruct s; reflexivity.
  - destruct s; [reflexivity|].
    pose proof (sqrt_core_nonneg m e) as Hq.
    destruct (SFsqrt_core_binary prec emax (Zpos m) e) as [[mz ez] lz].
    cbn [fst] in Hq.
    pose proof (binary_round_aux_not_nan false mz ez lz Hq) as Hn.
    destruct (binary_round_aux prec emax false mz ez lz); try reflexivity.
    now elim Hn.
Qed.

Lemma sqrt_not_negative (x : float) : (PrimFloat.sqrt x <? 0)%float = false.
Proof.
  rewrite ltb_spec, sqrt_spec. change (Prim2SF 0) with (S754_zero false).
  unfold SF64sqrt.
  destruct (Prim2SF x) as [s|s| |s m e]; cbn [SFsqrt]; try reflexivity.
  - destruct s; reflexivity.
  - destruct s; [reflexivity|].
    destruct (SFsqrt_core_binary prec emax (Zpos m) e) as [[mz ez] lz].
    apply binary_round_aux_not_negative.
Qed.

End SquareRoot.

Lemma g_score_cases (l : Locals) :
  g_score l = if (gas_sum l <? 0)%float then Raise ValueError else Raise TypeError.
Proof.
  unfold g_score.
  change (py_truediv (PyInt 3) (PyInt 500))
    with (Ok (PyFloat (float_of_int 3 / float_of_int 500))).
  cbn [rbind].
  change (py_add (py_add (py_add (PyFloat (sim_ch4 l)) (PyFloat (sim_co2 l)))
                         (PyFloat (sim_n20 l))) (PyFloat (sim_cfc l)))
    with (PyFloat (gas_sum l)).
  rewrite SquareRoot.math_sqrt_float.
  destruct (gas_sum l <? 0)%float; [reflexivity|].
  cbn [rbind]. rewrite SquareRoot.math_sqrt_float, SquareRoot.sqrt_not_negative.
  reflexivity.
Qed.

(** X1: the assignment to [g_score] raises [ValueError] exactly when the
    sum of the four gas concentrations is below zero, the case in which
    [math.sqrt] rejects its argument, and [TypeError] in every other
    case, a sum that is not a number included. *)
Theorem g_score_error_kind (l : Locals) :
  g_score l
  = if (gas_sum l <? 0)%float then Raise ValueError else Raise TypeError.
Proof. apply g_score_cases. Qed.

(** ** Topics *)

Module Topics.

Lemma list_of_append (s t : string) :
  list_ascii_of_string (s ++ t)
  = (list_ascii_of_string s ++ list_ascii_of_string t)%list.
Proof. induction s as [|c s IH]; cbn; [reflexivity | now rewrite IH]. Qed.

Lemma list_of_string_inj (s t : string) :
  list_ascii_of_string s = list_ascii_of_string t -> s = t.
Proof.
  intros Heq.
  rewrite <- (string_of_list_ascii_of_string s),
          <- (string_of_list_ascii_of_string t).
  now rewrite Heq.
Qed.

(** A string followed by a slash and one of the two sub-topics determines
    both. *)
Lemma slash_sub_topic_inj (d d' : string) (a a' : Args) :
  (d ++ "/" ++ sub_topic a)%string = (d' ++ "/" ++ sub_topic a')%string ->
  d = d' /\ sub_topic a = sub_topic a'.
Proof.
  intros Heq. apply (f_equal list_ascii_of_string) in Heq.
  rewrite !list_of_append in Heq.
  unfold sub_topic in *.
  destruct (String.eqb (message_type a) "event"),
           (String.eqb (message_type a') "event"); cbn in Heq.
  - apply app_inv_tail in Heq. split; [now apply list_of_string_inj | reflexivity].
  - exfalso.
    change ["/"; "e"; "v"; "e"; "n"; "t"; "s"]%char
      with (["/"; "e"; "v"; "e"; "n"; "t"] ++ ["s"])%char%list in Heq.
    change ["/"; "s"; "t"; "a"; "t"; "e"]%char
      with (["/"; "s"; "t"; "a"; "t"] ++ ["e"])%char%list in Heq.
    rewrite !app_assoc in Heq. apply app_inj_tail in Heq.
    destruct Heq as [_ Hc]. discriminate.
  - exfalso.
    change ["/"; "e"; "v"; "e"; "n"; "t"; "s"]%char
      with (["/"; "e"; "v"; "e"; "n"; "t"] ++ ["s"])%char%list in Heq.
    change ["/"; "s"; "t"; "a"; "t"; "e"]%char
      with (["/"; "s"; "t"; "a"; "t"] ++ ["e"])%char%list in Heq.
    rewrite !app_assoc in Heq. apply app_inj_tail in Heq.
    destruct Heq as [_ Hc]. discriminate.
  - apply app_inv_tail in Heq. split; [now apply list_of_string_inj | reflexivity].
Qed.

End Topics.

(** X2: the topic determines the device and the kind of message: two
    command lines with the same topic have the same device id and the same
    sub-topic, so the events topic of a device is never the state topic
    of any device. *)
Theorem mqtt_topic_injective (a a' : Args) :
  mqtt_topic a = mqtt_topic a' ->
  device_id a = device_id a' /\ sub_topic a = sub_topic a'.
Proof.
  unfold mqtt_topic. intros Heq.
  apply Topics.slash_sub_topic_inj.
  cbn in Heq. now injection Heq.
Qed.

(** The theorem for the sample command line against itself. *)
Lemma mqtt_topic_injective_witness :
  device_id (Sample.args 1) = device_id (Sample.args 1)
  /\ sub_topic (Sample.args 1) = sub_topic (Sample.args 1).
Proof.
  apply (mqtt_topic_injective (Sample.args 1) (Sample.args 1)). reflexivity.
Defined.

(** ** Runs of [main], case by case *)

Section Session.

Context {G : Type} `{RandomSource G}.

Lemma create_jwt_run (project key_file alg : string) (env : Env)
      (s : State G) :
  create_jwt project key_file alg env s =
  (match read_file env key_file with
   | None => Raise (open_error env key_file)
   | Some key =>
       if key_ok env key alg
       then Ok (jwt_encode env
                  (registered_claims
                     {| iat := clock env (clock_reads s);
                        exp := clock env (S (clock_reads s)) + sixty_minutes;
                        aud := project |}) key alg)
       else Raise (encode_error env key alg)
   end,
   {| rng := rng s; clock_reads := S (S (clock_reads s)) |},
   []).
Proof.
  unfold create_jwt, token_claims, open_read, encode, bind, read_clock, ret.
  cbn [rng clock_reads].
  destruct (read_file env key_file) as [key|]; [|reflexivity].
  destruct (key_ok env key alg); reflexivity.
Qed.

(** [setup] in terms of what [create_jwt] and [client.connect] do. *)
Lemma setup_by_cases (a : Args) (env : Env) (s : State G) :
  setup a env s =
  let s2 := {| rng := rng s; clock_reads := S (S (clock_reads s)) |} in
  match outcome (create_jwt (project_id a) (private_key_file a)
                            (algorithm a) env s) with
  | Raise e => (Raise e, s2, [EClient (client_id a)])
  | Ok pw =>
      if connect_ok env (mqtt_bridge_hostname a) (mqtt_bridge_port a)
      then (Ok tt, s2, firstn 5 (session_calls a pw))
      else (Raise (connect_error env (mqtt_bridge_hostname a)
                                 (mqtt_bridge_port a)), s2,
            firstn 4 (session_calls a pw))
  end.
Proof.
  rewrite setup_run, create_jwt_run. cbv zeta. cbn [outcome fst].
  destruct (read_file env (private_key_file a)) as [key|]; [|reflexivity].
  destruct (key_ok env key (algorithm a)); reflexivity.
Qed.

(** An exception of [create_jwt] is the one [open] raised for the key
    file, or the one [jwt.encode] raised for the key that was read. *)
Lemma create_jwt_errors (project key_file alg : string) (env : Env)
      (s : State G) (e : exn) :
  outcome (create_jwt project key_file alg env s) = Raise e ->
  (read_file env key_file = None /\ e = open_error env key_file)
  \/ (exists key,
         read_file env key_file = Some key
         /\ key_ok env key alg = false
         /\ e = encode_error env key alg).
Proof.
  rewrite create_jwt_run. cbn [outcome fst].
  destruct (read_file env key_file) as [key|].
  - destruct (key_ok env key alg) eqn:Hk; [discriminate|].
    intros [= <-]. right. exists key. auto.
  - intros [= <-]. now left.
Qed.

End Session.

(** X3: the calls [main] makes on the client are always an initial part
    of the same sequence: create the client, set user name "unused" and
    the password, set the CA certificates, connect, start the network
    loop, stop it.  From the second call on, the password is the token
    [create_jwt] returned. *)
Theorem client_calls_in_order {G : Type} `{RandomSource G}
        (a : Args) (env : Env) (s : State G) :
  exists (n : nat) (pw : string),
    events (main a env s) = firstn n (session_calls a pw)
    /\ (2 <= n ->
        outcome (create_jwt (project_id a) (private_key_file a)
                            (algorithm a) env s) = Ok pw)%nat.
Proof.
  rewrite main_run, setup_by_cases. cbv zeta.
  destruct (outcome (create_jwt _ _ _ env s)) as [pw|e].
  2:{ exists 1%nat, EmptyString. split; [reflexivity | lia]. }
  destruct (connect_ok env _ _).
  2:{ exists 4%nat, pw. split; [reflexivity | auto]. }
  rewrite simulate_run. cbn [clock_reads rng].
  destruct (Z.to_nat (num_messages a)) as [|n].
  - exists 6%nat, pw. split; [reflexivity | auto].
  - destruct (publish_loop_entered n a (seeded_locals (device_id a)) env
                {| rng := seeded_rng (device_id a);
                   clock_reads := S (S (clock_reads s)) |})
      as (e & _ & ->).
    exists 5%nat, pw. split; [reflexivity | auto].
Qed.

(** X4: when [create_jwt] raises, whichever exception it is, [main]
    raises the same exception after creating the client and nothing else:
    no credentials are set, no connection is attempted, the generator is
    untouched and the clock has been read twice.  The exception is the
    one [open] raised for the key file or, when the file was read, the one
    [jwt.encode] raised for its content. *)
Theorem credential_failure_stops_session {G : Type} `{RandomSource G}
        (a : Args) (env : Env) (s : State G) (e : exn) :
  outcome (create_jwt (project_id a) (private_key_file a) (algorithm a) env s)
  = Raise e ->
  main a env s
  = (Raise e, {| rng := rng s; clock_reads := S (S (clock_reads s)) |},
     [EClient (client_id a)])
  /\ ((read_file env (private_key_file a) = None
       /\ e = open_error env (private_key_file a))
      \/ (exists key,
             read_file env (private_key_file a) = Some key
             /\ key_ok env key (algorithm a) = false
             /\ e = encode_error env key (algorithm a))).
Proof.
  intros He. split; [|now apply create_jwt_errors in He].
  rewrite main_run, setup_by_cases, He. reflexivity.
Qed.

(** The theorem when the key file may not be read. *)
Lemma credential_failure_stops_session_witness :
  @main unit Sample.steady (Sample.args 3) Faults.no_key_file Sample.start
  = (Raise PermissionError, {| rng := tt; clock_reads := 2 |},
     [EClient (client_id (Sample.args 3))])
  /\ ((read_file Faults.no_key_file (private_key_file (Sample.args 3)) = None
       /\ PermissionError
          = open_error Faults.no_key_file (private_key_file (Sample.args 3)))
      \/ (exists key,
             read_file Faults.no_key_file (private_key_file (Sample.args 3))
             = Some key
             /\ key_ok Faults.no_key_file key (algorithm (Sample.args 3))
                = false
             /\ PermissionError
                = encode_error Faults.no_key_file key
                               (algorithm (Sample.args 3)))).
Proof.
  apply (@credential_failure_stops_session unit Sample.steady (Sample.args 3)
           Faults.no_key_file Sample.start PermissionError).
  reflexivity.
Defined.

(** X5: when the token was made and [client.connect] raises, [main]
    raises that exception after exactly four calls: the network loop is
    not started and the generator is neither seeded nor drawn from. *)
Theorem connection_failure_stops_session {G : Type} `{RandomSource G}
        (a : Args) (env : Env) (s : State G) (pw : string) :
  outcome (create_jwt (project_id a) (private_key_file a) (algorithm a) env s)
  = Ok pw ->
  connect_ok env (mqtt_bridge_hostname a) (mqtt_bridge_port a) = false ->
  main a env s
  = (Raise (connect_error env (mqtt_bridge_hostname a) (mqtt_bridge_port a)),
     {| rng := rng s; clock_reads := S (S (clock_reads s)) |},
     firstn 4 (session_calls a pw)).
Proof.
  intros Hpw Hc. rewrite main_run, setup_by_cases, Hpw, Hc. reflexivity.
Qed.

(** The theorem when the name of the broker does not resolve. *)
Lemma connection_failure_stops_session_witness :
  @main unit Sample.steady (Sample.args 3) Faults.unreachable Sample.start
  = (Raise GaiError, {| rng := tt; clock_reads := 2 |},
     firstn 4 (session_calls (Sample.args 3) "jwt")).
Proof.
  apply (@connection_failure_stops_session unit Sample.steady (Sample.args 3)
           Faults.unreachable Sample.start "jwt"); reflexivity.
Defined.

(** X6: with a number of messages that is zero or negative, a run whose
    set-up succeeds returns normally after the six calls of a session:
    the loop body is never entered, nothing is published, and the
    generator is left as the thirteen initial draws leave it. *)
Theorem empty_budget_run {G : Type} `{RandomSource G}
        (a : Args) (env : Env) (s : State G) (pw : string) :
  outcome (create_jwt (project_id a) (private_key_file a) (algorithm a) env s)
  = Ok pw ->
  connect_ok env (mqtt_bridge_hostname a) (mqtt_bridge_port a) = true ->
  num_messages a <= 0 ->
  main a env s
  = (Ok tt,
     {| rng := seeded_rng (device_id a);
        clock_reads := S (S (clock_reads s)) |},
     session_calls a pw).
Proof.
  intros Hpw Hc Hn. rewrite main_run, setup_by_cases, Hpw, Hc.
  cbv beta iota zeta. rewrite simulate_run. cbn [clock_reads rng].
  replace (Z.to_nat (num_messages a)) with 0%nat by lia.
  reflexivity.
Qed.

(** The theorem for [--num_messages -2]. *)
Lemma empty_budget_run_witness :
  @main unit Sample.steady (Sample.args (-2)) Sample.env Sample.start
  = (Ok tt,
     {| rng := @seeded_rng unit Sample.steady (device_id (Sample.args (-2)));
        clock_reads := 2 |},
     session_calls (Sample.args (-2)) "jwt").
Proof.
  apply (@empty_budget_run unit Sample.steady (Sample.args (-2)) Sample.env
           Sample.start "jwt"); [reflexivity | reflexivity | discriminate].
Defined.

(** X7: with a positive number of messages, a run whose set-up succeeds
    ends in the first iteration of the loop, whatever the number: it
    raises the exception of the index expression for the state after one
    step, has made the five calls up to the start of the network loop,
    has read the clock twice only, and leaves the generator one step past
    its initial draws. *)
Theorem entered_loop_run {G : Type} `{RandomSource G}
        (a : Args) (env : Env) (s : State G) (pw : string) :
  outcome (create_jwt (project_id a) (private_key_file a) (algorithm a) env s)
  = Ok pw ->
  connect_ok env (mqtt_bridge_hostname a) (mqtt_bridge_port a) = true ->
  0 < num_messages a ->
  main a env s
  = ((if (gas_sum (fst (advance (seeded_locals (device_id a))
                                (seeded_rng (device_id a)))) <? 0)%float
      then Raise ValueError else Raise TypeError),
     {| rng := snd (advance (seeded_locals (device_id a))
                            (seeded_rng (device_id a)));
        clock_reads := S (S (clock_reads s)) |},
     firstn 5 (session_calls a pw)).
Proof.
  intros Hpw Hc Hn. rewrite main_run, setup_by_cases, Hpw, Hc.
  cbv beta iota zeta. rewrite simulate_run. cbn [clock_reads rng].
  destruct (Z.to_nat (num_messages a)) as [|n] eqn:HN; [lia|].
  pose proof (g_score_cases
                (fst (advance (seeded_locals (device_id a))
                              (seeded_rng (device_id a))))) as Hg.
  destruct (gas_sum _ <? 0)%float.
  - rewrite (publish_loop_failure n a (seeded_locals (device_id a)) env
               {| rng := seeded_rng (device_id a);
                  clock_reads := S (S (clock_reads s)) |} ValueError Hg).
    reflexivity.
  - rewrite (publish_loop_failure n a (seeded_locals (device_id a)) env
               {| rng := seeded_rng (device_id a);
                  clock_reads := S (S (clock_reads s)) |} TypeError Hg).
    reflexivity.
Qed.

(** The theorem for [--num_messages 3]. *)
Lemma entered_loop_run_witness :
  @main unit Sample.steady (Sample.args 3) Sample.env Sample.start
  = ((if (gas_sum
            (fst (@advance unit Sample.steady
                    (@seeded_locals unit Sample.steady
                                    (device_id (Sample.args 3)))
                    (@seeded_rng unit Sample.steady
                                 (device_id (Sample.args 3))))) <? 0)%float
      then Raise ValueError else Raise TypeError),
     {| rng := snd (@advance unit Sample.steady
                      (@seeded_locals unit Sample.steady
                                      (device_id (Sample.args 3)))
                      (@seeded_rng unit Sample.steady
                                   (device_id (Sample.args 3))));
        clock_reads := 2 |},
     firstn 5 (session_calls (Sample.args 3) "jwt")).
Proof.
  apply (@entered_loop_run unit Sample.steady (Sample.args 3) Sample.env
           Sample.start "jwt"); reflexivity.
Defined.

(** ** The direction of the temperatures *)

Module Steps.

Import Format.

(** Rounding a non-negative mantissa with a positive sign gives zero, a
    positive number or infinity. *)
Lemma binary_round_aux_shape (m e : Z) (l : location) :
  0 <= m ->
  binary_round_aux prec emax false m e l = S754_zero false
  \/ (exists p e', binary_round_aux prec emax false m e l
                   = S754_finite false p e')
  \/ binary_round_aux prec emax false m e l = S754_infinity false.
Proof.
  intros Hm.
  pose proof (SquareRoot.binary_round_aux_not_nan false m e l Hm) as Hn.
  unfold binary_round_aux in *.
  destruct (shr_fexp prec emax m e l) as [mrs' e'].
  destruct (shr_fexp prec emax _ e' loc_Exact) as [mrs'' e''].
  destruct (shr_m mrs''); [auto | | now elim Hn].
  destruct (e'' <=? emax - prec); eauto.
Qed.

(** A mantissa brought to the exponent of its rounding. *)
Lemma binary_round_aligned (sgn : bool) (s : positive) (ez : Z) :
  -1074 <= ez ->
  exists (M : positive) (E : Z),
    binary_round prec emax sgn s ez
    = binary_round_aux prec emax sgn (Zpos M) E loc_Exact
    /\ E <= fexp prec emax (Zdigits2 (Zpos M) + E)
    /\ -1074 <= E
    /\ Zpos M * 2 ^ (E + 1074) = Zpos s * 2 ^ (ez + 1074).
Proof.
  intros Hez. unfold binary_round.
  destruct (Rounding.shl_align_spec s ez
              (fexp prec emax (Zpos (digits2_pos s) + ez)))
    as (Hz2 & Hmz & Hdz).
  destruct (shl_align s ez _) as [mz ez2]. cbn [fst snd] in Hz2, Hmz, Hdz.
  exists mz, ez2. split; [reflexivity|].
  rewrite <- Hz2 in Hmz, Hdz.
  rewrite Rounding.fexp_eq in *.
  cbn [Zdigits2]. rewrite Hdz.
  split; [lia|]. split; [lia|].
  rewrite Hmz.
  replace (ez + 1074) with ((ez - ez2) + (ez2 + 1074)) by lia.
  rewrite (Rounding.pow2_add (ez - ez2)) by lia.
  ring.
Qed.

(** Adding zero, a positive number or infinity to a positive number does
    not lower it. *)
Lemma SFadd_rise (pt : positive) (et : Z) (Y : spec_float) :
  canon (Zpos pt) et -> valid_binary Y = true ->
  SFleb (S754_zero false) Y = true ->
  SFleb (S754_finite false pt et)
        (SFadd prec emax (S754_finite false pt et) Y) = true.
Proof.
  intros Ct Vy Hy.
  destruct Y as [s|s| |s py ey]; try discriminate.
  - cbn [SFadd]. apply Rounding.SFleb_refl_finite.
  - destruct s; [discriminate | reflexivity].
  - destruct s; [discriminate|].
    destruct (Rounding.valid_canon _ _ _ Vy) as [Cy _].
    apply Rounding.SFadd_lower; auto.
    pose proof Cy as (Hmy & Hey0 & Hny).
    assert (0 < 2 ^ (ey + 1074)) by (apply Rounding.pow2_pos; lia).
    nia.
Qed.

(** Subtracting zero, a positive number or infinity from a positive
    number does not raise it. *)
Lemma SFsub_fall (pt : positive) (et : Z) (Y : spec_float) :
  canon (Zpos pt) et -> et <= 971 -> valid_binary Y = true ->
  SFleb (S754_zero false) Y = true ->
  SFleb (SFsub prec emax (S754_finite false pt et) Y)
        (S754_finite false pt et) = true.
Proof.
  intros Ct Het Vy Hy.
  destruct Y as [s|s| |s py ey]; try discriminate.
  - cbn [SFsub]. apply Rounding.SFleb_refl_finite.
  - destruct s; [discriminate | reflexivity].
  - destruct s; [discriminate|].
    destruct (Rounding.valid_canon _ _ _ Vy) as [Cy _].
    cbn [SFsub cond_Zopp].
    set (ez := Z.min et ey).
    pose proof Ct as (Hmt & Het0 & Hnt).
    pose proof Cy as (Hmy & Hey0 & Hny).
    assert (Hez : -1074 <= ez) by lia.
    destruct (Rounding.shl_align_spec pt et ez) as (_ & Ha & _).
    destruct (Rounding.shl_align_spec py ey ez) as (_ & Hb & _).
    rewrite (Z.min_r et ez) in Ha by lia.
    rewrite (Z.min_r ey ez) in Hb by lia.
    set (a := fst (shl_align pt et ez)) in *.
    set (b := fst (shl_align py ey ez)) in *.
    destruct (Zpos a - Zpos b) as [|d|d] eqn:Hd; cbn [binary_normalize].
    + reflexivity.
    + destruct (binary_round_aligned false d ez Hez)
        as (M & E & -> & Hpre & HE & Hval).
      apply (Rounding.round_le_repr _ _ pt et (-1074)); auto; try lia.
      replace (E - -1074) with (E + 1074) by lia.
      replace (et - -1074) with (et + 1074) by lia.
      rewrite Hval.
      replace (et + 1074) with ((et - ez) + (ez + 1074)) by lia.
      rewrite (Rounding.pow2_add (et - ez)), Z.mul_assoc, <- Ha by lia.
      apply Z.mul_le_mono_nonneg_r;
        [apply Z.lt_le_incl, Rounding.pow2_pos|]; lia.
    + destruct (binary_round_aligned true d ez Hez)
        as (M & E & -> & Hpre & HE & Hval).
      change true with (negb false).
      rewrite Binary64.binary_round_aux_opp.
      destruct (binary_round_aux_shape (Zpos M) E loc_Exact ltac:(lia))
        as [-> | [(p & e' & ->) | ->]]; reflexivity.
Qed.

Lemma positive_finite_spec (t : float) :
  positive_finite t = true ->
  exists p e, Prim2SF t = S754_finite false p e.
Proof.
  unfold positive_finite. rewrite andb_true_iff, !ltb_spec.
  change (Prim2SF 0) with (S754_zero false).
  change (Prim2SF infinity) with (S754_infinity false).
  destruct (Prim2SF t) as [s|s| |s p e]; intros [H0 Hi]; try discriminate.
  - destruct s; discriminate.
  - destruct s; [discriminate | eauto].
Qed.

(** The product of one and a non-negative float is not negative. *)
Lemma unit_product_nonneg (n : float) :
  (0 <=? n)%float = true ->
  SFleb (S754_zero false) (Prim2SF (float_of_int 1 * n)) = true.
Proof.
  rewrite leb_spec, mul_spec.
  change (Prim2SF 0) with (S754_zero false).
  change (Prim2SF (float_of_int 1)) with spec_one.
  unfold SF64mul, spec_one.
  destruct (Prim2SF n) as [s|s| |s p e]; try discriminate.
  - intros _. now destruct s.
  - destruct s; [discriminate | reflexivity].
  - destruct s; [discriminate|]. intros _. cbn [SFmul xorb].
    destruct (binary_round_aux_shape
                (Zpos (4503599627370496 * p)) (-52 + e) loc_Exact
                ltac:(lia))
      as [-> | [(q & e' & ->) | ->]]; reflexivity.
Qed.

Lemma step_up (t n : float) :
  positive_finite t = true -> (0 <=? n)%float = true ->
  (t <=? t + float_of_int 1 * n)%float = true.
Proof.
  intros Ht Hn. rewrite leb_spec, add_spec.
  destruct (positive_finite_spec t Ht) as (p & e & Hp).
  pose proof (Prim2SF_valid t) as Vt. rewrite Hp in Vt |- *.
  destruct (Rounding.valid_canon _ _ _ Vt) as [Ct _].
  apply SFadd_rise; auto.
  - apply Prim2SF_valid.
  - now apply unit_product_nonneg.
Qed.

Lemma step_down (t n : float) :
  positive_finite t = true -> (0 <=? n)%float = true ->
  (t + float_of_int (-1) * n <=? t)%float = true.
Proof.
  intros Ht Hn.
  change (float_of_int (-1)) with (- float_of_int 1)%float.
  rewrite Binary64.mul_opp_l, <- Binary64.sub_add_opp.
  rewrite leb_spec, sub_spec.
  destruct (positive_finite_spec t Ht) as (p & e & Hp).
  pose proof (Prim2SF_valid t) as Vt. rewrite Hp in Vt |- *.
  destruct (Rounding.valid_canon _ _ _ Vt) as [Ct He].
  apply SFsub_fall; auto.
  - apply Prim2SF_valid.
  - now apply unit_product_nonneg.
Qed.

End Steps.

Section Direction.

Context {G : Type} `{RandomSource G}.

Lemma advance_temperatures (l : Locals) (g : G) :
  simulated_temp (fst (advance l g))
  = (simulated_temp l
     + float_of_int (temperature_trend l)
       * fst (normalvariate 0.01 0.005 g))%float
  /\ simulated_temp_out (fst (advance l g))
     = (simulated_temp_out l
        + float_of_int (temperature_trend l)
          * fst (normalvariate 0.01 0.005
                               (snd (normalvariate 0.01 0.005 g))))%float.
Proof. unfold advance. rewrite !dbind_run. split; reflexivity. Qed.

End Direction.

(** X8: for temperatures that are positive and finite and normal draws
    that are not negative, one execution of the assignments does not
    lower either temperature when the trend is +1 and does not raise
    either when the trend is -1, in binary64 arithmetic. *)
Theorem temperatures_follow_trend {G : Type} `{RandomSource G}
        (l : Locals) (g : G) :
  positive_finite (simulated_temp l) = true ->
  positive_finite (simulated_temp_out l) = true ->
  (0 <=? fst (normalvariate 0.01 0.005 g))%float = true ->
  (0 <=? fst (normalvariate 0.01 0.005
                            (snd (normalvariate 0.01 0.005 g))))%float = true ->
  (temperature_trend l = 1 ->
   (simulated_temp l <=? simulated_temp (fst (advance l g)))%float = true
   /\ (simulated_temp_out l <=? simulated_temp_out (fst (advance l g)))%float
      = true)
  /\ (temperature_trend l = -1 ->
      (simulated_temp (fst (advance l g)) <=? simulated_temp l)%float = true
      /\ (simulated_temp_out (fst (advance l g)) <=? simulated_temp_out l)%float
         = true).
Proof.
  intros Ht Ho Hn1 Hn2.
  destruct (advance_temperatures l g) as [-> ->].
  split; intros ->; split;
    first [now apply Steps.step_up | now apply Steps.step_down].
Qed.

(** The theorem for the first step of the sample run. *)
Lemma temperatures_follow_trend_witness :
  (temperature_trend Sample.locals0 = 1 ->
   (simulated_temp Sample.locals0
    <=? simulated_temp (fst (@advance unit Sample.steady Sample.locals0 tt)))%float
   = true
   /\ (simulated_temp_out Sample.locals0
       <=? simulated_temp_out
             (fst (@advance unit Sample.steady Sample.locals0 tt)))%float
      = true)
  /\ (temperature_trend Sample.locals0 = -1 ->
      (simulated_temp (fst (@advance unit Sample.steady Sample.locals0 tt))
       <=? simulated_temp Sample.locals0)%float = true
      /\ (simulated_temp_out
            (fst (@advance unit Sample.steady Sample.locals0 tt))
          <=? simulated_temp_out Sample.locals0)%float = true).
Proof.
  apply (@temperatures_follow_trend unit Sample.steady Sample.locals0 tt);
    reflexivity.
Defined.

(** * The signs: the trend and the coins *)

(** ** The comparison of a value of [random()] with one half *)

Module Grid.

Import Format.

Lemma SFltb_of_lt (p1 p2 : positive) (e1 e2 c : Z) :
  canon (Zpos p1) e1 -> canon (Zpos p2) e2 -> c <= e1 -> c <= e2 ->
  Zpos p1 * 2 ^ (e1 - c) < Zpos p2 * 2 ^ (e2 - c) ->
  SFltb (S754_finite false p1 e1) (S754_finite false p2 e2) = true.
Proof.
  intros (Hm1 & He1 & Hn1) (Hm2 & He2 & Hn2) Hc1 Hc2 Hlt.
  unfold SFltb. cbn [SFcompare].
  destruct (Z.compare_spec e1 e2) as [Heq|Hl|Hgt]; [| reflexivity |].
  - subst e2.
    assert (0 < 2 ^ (e1 - c)) by (apply Rounding.pow2_pos; lia).
    assert (Hp : (p1 < p2)%positive) by nia.
    change (Pos.compare_cont Eq p1 p2) with (Pos.compare p1 p2).
    destruct (Pos.compare_spec p1 p2); try reflexivity; lia.
  - exfalso.
    rewrite (Rounding.scale_split e1 c e2), Z.mul_assoc in Hlt by lia.
    apply Z.mul_lt_mono_pos_r in Hlt; [|apply Rounding.pow2_pos; lia].
    pose proof (Rounding.pow2_le 1 (e1 - e2) ltac:(lia)) as Hpow.
    specialize (Hn1 ltac:(lia)).
    pose proof (Z.mul_le_mono_nonneg (2 ^ 52) (Zpos p1) (2 ^ 1)
                  (2 ^ (e1 - e2)) ltac:(lia) Hn1 ltac:(lia) Hpow).
    lia.
Qed.

(** The float of a positive integer below 2^63. *)
Lemma of_uint63_pos (k : Z) :
  0 < k < 2 ^ 63 ->
  exists (M : positive) (E : Z),
    Prim2SF (of_uint63 (Uint63.of_Z k))
    = binary_round_aux prec emax false (Zpos M) E loc_Exact
    /\ E <= fexp prec emax (Zdigits2 (Zpos M) + E)
    /\ -1074 <= E
    /\ Zpos M * 2 ^ (E + 1074) = k * 2 ^ 1074.
Proof.
  intros Hk. rewrite FloatAxioms.of_uint63_spec, Uint63.of_Z_spec.
  change Uint63.wB with (2 ^ 63). rewrite Z.mod_small by lia.
  destruct k as [|p|p]; try lia. cbn [binary_normalize].
  destruct (Steps.binary_round_aligned false p 0 ltac:(lia))
    as (M & E & -> & Hpre & HE & Hval).
  exists M, E. auto.
Qed.

(** A positive float not above 2^52, as a scaled integer. *)
Lemma le_of_SFleb_scaled (p : positive) (e : Z) :
  canon (Zpos p) e ->
  SFleb (S754_finite false p e) (S754_finite false 4503599627370496 0) = true ->
  Zpos p * 2 ^ (e + 1074) <= 4503599627370496 * 2 ^ 1074.
Proof.
  intros Cx Hle.
  assert (Htop : canon 4503599627370496 0).
  { unfold canon. Rounding.split_ands; lia. }
  pose proof Cx as (_ & He & _).
  pose proof (Rounding.le_of_SFleb p 4503599627370496 e 0 (-1074) Cx Htop
                ltac:(lia) ltac:(lia) Hle) as Hv.
  replace (e - -1074) with (e + 1074) in Hv by lia.
  exact Hv.
Qed.

(** What is not above a positive float is not strictly above it
    either. *)
Lemma not_lt_of_le (X : spec_float) (pF : positive) (eF : Z) :
  canon (Zpos pF) eF ->
  SFleb X (S754_finite false pF eF) = true ->
  SFltb (S754_finite false pF eF) X = false.
Proof.
  intros HF. unfold SFleb, SFltb.
  destruct X as [s|s| |s p e]; cbn [SFcompare]; try reflexivity.
  - destruct s; [reflexivity | discriminate].
  - destruct s; [reflexivity|].
    rewrite (Z.compare_antisym e eF).
    destruct (e ?= eF) eqn:Hc; cbn [CompOpp]; try reflexivity; try discriminate.
    change (Pos.compare_cont Eq pF p) with (Pos.compare pF p).
    change (Pos.compare_cont Eq p pF) with (Pos.compare p pF).
    rewrite (Pos.compare_antisym p pF).
    destruct (p ?= pF)%positive; cbn [CompOpp]; try reflexivity; discriminate.
Qed.

Lemma half_spec : Prim2SF 0.5 = S754_finite false 4503599627370496 (-53).
Proof. reflexivity. Qed.

Lemma unit_spec : Prim2SF 0x1p-53 = S754_finite false 4503599627370496 (-105).
Proof. reflexivity. Qed.

(** The product of a positive float and 2^-53, before rounding. *)
Lemma SFmul_unit (p : positive) (e : Z) :
  canon (Zpos p) e ->
  SFmul prec emax (S754_finite false p e)
        (S754_finite false 4503599627370496 (-105))
  = binary_round_aux prec emax false (Zpos (p * 4503599627370496))
                     (e + -105) loc_Exact
  /\ e + -105
     <= fexp prec emax (Zdigits2 (Zpos (p * 4503599627370496)) + (e + -105)).
Proof.
  intros (Hm & He & Hn). split; [reflexivity|].
  assert (52 < Zdigits2 (Zpos (p * 4503599627370496))).
  { apply Rounding.Zdigits2_ge; [lia|]. rewrite Pos2Z.inj_mul.
    change (2 ^ 52) with 4503599627370496. nia. }
  rewrite Rounding.fexp_eq. lia.
Qed.

(** Up to one half the comparison fails. *)
Lemma low_half (k : Z) :
  0 <= k <= 2 ^ 52 -> (0.5 <? random_value k)%float = false.
Proof.
  intros Hk. unfold random_value.
  rewrite FloatAxioms.ltb_spec, FloatAxioms.mul_spec, half_spec, unit_spec.
  unfold SF64mul.
  destruct (Z.eq_dec k 0) as [-> | Hk0]; [reflexivity|].
  pose proof (Prim2SF_valid (of_uint63 (Uint63.of_Z k))) as Vx.
  destruct (of_uint63_pos k ltac:(lia)) as (M & E & HX & Hpre & HE & Hval).
  assert (Htop : canon 4503599627370496 0).
  { unfold canon. Rounding.split_ands; lia. }
  assert (Hhalf : canon 4503599627370496 (-53)).
  { unfold canon. Rounding.split_ands; lia. }
  assert (Hle : SFleb (Prim2SF (of_uint63 (Uint63.of_Z k)))
                      (S754_finite false 4503599627370496 0) = true).
  { rewrite HX.
    apply (Rounding.round_le_repr _ _ _ 0 (-1074)); auto; try lia.
    replace (E - -1074) with (E + 1074) by lia. rewrite Hval.
    apply Z.mul_le_mono_nonneg_r; [apply Z.lt_le_incl, Rounding.pow2_pos|];
      lia. }
  rewrite HX in Vx, Hle |- *.
  destruct (Steps.binary_round_aux_shape (Zpos M) E loc_Exact ltac:(lia))
    as [-> | [(p & e & Hp) | Hinf]].
  - reflexivity.
  - rewrite Hp in Vx, Hle |- *.
    destruct (Rounding.valid_canon _ _ _ Vx) as [Cx _].
    pose proof (le_of_SFleb_scaled p e Cx Hle) as Hv.
    destruct (SFmul_unit p e Cx) as [-> Hpre'].
    assert (Hup : SFleb (binary_round_aux prec emax false
                           (Zpos (p * 4503599627370496)) (e + -105) loc_Exact)
                        (S754_finite false 4503599627370496 (-53)) = true).
    { destruct Cx as (_ & He & _).
      apply (Rounding.round_le_repr _ _ _ (-53) (-1179));
        auto; try lia.
      replace (e + -105 - -1179) with (e + 1074) by lia.
      replace (-53 - -1179) with (52 + 1074) by lia.
      rewrite (Rounding.pow2_add 52 1074), Pos2Z.inj_mul by lia.
      change (2 ^ 52) with 4503599627370496 in *.
      replace (Zpos p * 4503599627370496 * 2 ^ (e + 1074))
        with (4503599627370496 * (Zpos p * 2 ^ (e + 1074))) by ring.
      apply Z.mul_le_mono_nonneg_l; [lia | exact Hv]. }
    apply not_lt_of_le; auto.
  - rewrite Hinf in Hle. discriminate.
Qed.

(** Above one half the comparison holds. *)
Lemma high_half (k : Z) :
  2 ^ 52 < k < 2 ^ 53 -> (0.5 <? random_value k)%float = true.
Proof.
  intros Hk. unfold random_value.
  pose proof (Prim2SF_valid (of_uint63 (Uint63.of_Z k) * 0x1p-53)) as Vy.
  rewrite FloatAxioms.mul_spec, unit_spec in Vy.
  rewrite FloatAxioms.ltb_spec, FloatAxioms.mul_spec, half_spec, unit_spec.
  unfold SF64mul in *.
  pose proof (Prim2SF_valid (of_uint63 (Uint63.of_Z k))) as Vx.
  destruct (of_uint63_pos k ltac:(lia)) as (M & E & HX & Hpre & HE & Hval).
  assert (Hnext : canon 4503599627370497 0).
  { unfold canon. Rounding.split_ands; lia. }
  assert (Hnext' : canon 4503599627370497 (-53)).
  { unfold canon. Rounding.split_ands; lia. }
  assert (Hhalf : canon 4503599627370496 (-53)).
  { unfold canon. Rounding.split_ands; lia. }
  assert (Hge : SFleb (S754_finite false 4503599627370497 0)
                      (Prim2SF (of_uint63 (Uint63.of_Z k))) = true).
  { rewrite HX.
    apply (Rounding.round_ge_repr _ _ _ 0 (-1074)); auto; try lia.
    replace (E - -1074) with (E + 1074) by lia. rewrite Hval.
    apply Z.mul_le_mono_nonneg_r; [apply Z.lt_le_incl, Rounding.pow2_pos|];
      lia. }
  rewrite HX in Vx, Vy, Hge |- *.
  destruct (Steps.binary_round_aux_shape (Zpos M) E loc_Exact ltac:(lia))
    as [Hz | [(p & e & Hp) | Hinf]].
  - rewrite Hz in Hge. discriminate.
  - rewrite Hp in Vx, Vy, Hge |- *.
    destruct (Rounding.valid_canon _ _ _ Vx) as [Cx _].
    pose proof Cx as (_ & He & _).
    pose proof (Rounding.le_of_SFleb _ _ _ _ (-1074) Hnext Cx
                  ltac:(lia) ltac:(lia) Hge) as Hv.
    replace (e - -1074) with (e + 1074) in Hv by lia.
    change (0 - -1074) with 1074 in Hv.
    destruct (SFmul_unit p e Cx) as [Hmul Hpre'].
    rewrite Hmul in Vy |- *.
    assert (Hlow : SFleb (S754_finite false 4503599627370497 (-53))
                         (binary_round_aux prec emax false
                            (Zpos (p * 4503599627370496)) (e + -105)
                            loc_Exact) = true).
    { apply (Rounding.round_ge_repr _ _ _ (-53) (-1179)); auto; try lia.
      replace (e + -105 - -1179) with (e + 1074) by lia.
      replace (-53 - -1179) with (52 + 1074) by lia.
      rewrite (Rounding.pow2_add 52 1074), Pos2Z.inj_mul by lia.
      change (2 ^ 52) with 4503599627370496 in *.
      replace (Zpos p * 4503599627370496 * 2 ^ (e + 1074))
        with (4503599627370496 * (Zpos p * 2 ^ (e + 1074))) by ring.
      replace (4503599627370497 * (4503599627370496 * 2 ^ 1074))
        with (4503599627370496 * (4503599627370497 * 2 ^ 1074)) by ring.
      apply Z.mul_le_mono_nonneg_l; [lia | exact Hv]. }
    destruct (Steps.binary_round_aux_shape
                (Zpos (p * 4503599627370496)) (e + -105) loc_Exact
                ltac:(lia))
      as [Hz | [(q & e' & Hq) | Hinf]].
    + rewrite Hz in Hlow. discriminate.
    + rewrite Hq in Vy, Hlow |- *.
      destruct (Rounding.valid_canon _ _ _ Vy) as [Cy _].
      pose proof Cy as (_ & He' & _).
      pose proof (Rounding.le_of_SFleb _ _ _ _ (-1074) Hnext' Cy
                    ltac:(lia) ltac:(lia) Hlow) as Hv'.
      apply (SFltb_of_lt _ _ _ _ (-1074)); auto; lia.
    + rewrite Hinf. reflexivity.
  - rewrite Hinf. reflexivity.
Qed.

(** A value k / 2^53 of [random()] is above one half exactly when k is
    above 2^52. *)
Lemma threshold (k : Z) :
  0 <= k < 2 ^ 53 -> (0.5 <? random_value k)%float = (2 ^ 52 <? k).
Proof.
  intros Hk. destruct (Z.ltb_spec (2 ^ 52) k).
  - apply high_half. lia.
  - apply low_half. lia.
Qed.

End Grid.

(** ** How many values of [random()] give the sign +1 *)

Lemma count_up_spec (n : nat) :
  Z.of_nat n <= 2 ^ 53 -> count_up n = Z.max 0 (Z.of_nat n - 2 ^ 52 - 1).
Proof.
  induction n as [|n IH]; intros Hn; [reflexivity|].
  cbn [count_up]. unfold float_gt.
  rewrite Grid.threshold, IH by lia.
  destruct (Z.ltb_spec (2 ^ 52) (Z.of_nat n)); lia.
Qed.

(** Of the 2^53 values of [random()], 2^52 - 1 are above one half. *)
Lemma count_up_all : count_up (Z.to_nat (2 ^ 53)) = 2 ^ 52 - 1.
Proof.
  rewrite count_up_spec; rewrite Z2Nat.id; lia.
Qed.

(** ** The loop as a number of steps *)

Section LoopSteps.

Context {G : Type} `{RandomSource G}.

Lemma advance_n_succ (k : nat) (l : Locals) (g : G) :
  advance_n (S k) l g = advance_n k (fst (advance l g)) (snd (advance l g)).
Proof. cbn [advance_n]. apply dbind_run. Qed.

(** The loop runs the twelve assignments once per iteration it enters:
    it leaves the generator where some number [k] of steps leave it; when
    it returns, [k] is the number of iterations asked for and the locals
    are those of [k] steps; when it raises, the exception is that of the
    index for the locals of [k] steps. *)
Lemma publish_loop_steps (n : nat) (a : Args) (l : Locals) (env : Env)
      (s : State G) :
  exists k : nat,
    (k <= n)%nat
    /\ rng (final_state (publish_loop n a l env s))
       = snd (advance_n k l (rng s))
    /\ (forall l',
           outcome (publish_loop n a l env s) = Ok l' ->
           k = n /\ l' = fst (advance_n n l (rng s)))
    /\ (forall e,
           outcome (publish_loop n a l env s) = Raise e ->
           (0 < k)%nat /\ g_score (fst (advance_n k l (rng s))) = Raise e).
Proof.
  revert l s. induction n as [|n IH]; intros l s.
  - exists 0%nat. cbn. split; [lia|]. split; [reflexivity|].
    split; [intros l' [= <-]; auto | discriminate].
  - cbn [publish_loop]. unfold bind. rewrite tick_run.
    destruct (g_score (fst (advance l (rng s)))) as [v|e] eqn:Hg.
    + destruct (IH (fst (advance l (rng s)))
                   {| rng := snd (advance l (rng s));
                      clock_reads := S (clock_reads s) |})
        as (k & Hk & Hrng & Hok & Herr).
      destruct (publish_loop n a _ env _) as [[r s2] t2].
      cbn [outcome final_state fst snd rng] in *.
      exists (S k). rewrite !advance_n_succ.
      split; [lia|]. split; [exact Hrng|]. split.
      * intros l' Hl'. destruct (Hok l' Hl') as [-> ->]. auto.
      * intros e He. destruct (Herr e He) as [_ Hs]. split; [lia | exact Hs].
    + exists 1%nat. rewrite advance_n_succ. unfold after_advance.
      cbn [outcome final_state fst snd rng advance_n dret].
      split; [lia|]. split; [reflexivity|].
      split; [discriminate|]. intros e' [= <-]. split; [lia | exact Hg].
Qed.

Lemma coin_is_fair_sign (g : G) : coin g = fair_sign g.
Proof.
  unfold coin, fair_sign, float_gt. rewrite dbind_run. reflexivity.
Qed.

End LoopSteps.

(** ** The trend of the temperatures (C6) *)



(** ** The evolution rule (C8) *)


